(** * A shallow embedding of the TinaCMS GraphQL database layer

    [packages/@tinacms/graphql/src/database/index.ts]: the [Database] class
    (get, put, stringifyFile, delete, clearCache, getSchema,
    getIndexDefinitions, query, indexStatusCallbackWrapper) over an ordered
    key-value store with sublevels and a bridge filesystem. *)

From Stdlib Require Import ZArith Ascii String.
From stdpp Require Import base gmap strings list pretty.

Open Scope string_scope.

(** ** Payload values and the enriched schema *)

(** A document payload is a JS object; its values are modelled as a tagged
    union. [VUndef] is the JS [undefined]; [VObj] stands for nested values
    the layer never looks into. *)
Inductive value :=
  | VStr (s : string)
  | VNum (n : Z)
  | VBool (b : bool)
  | VNull
  | VUndef
  | VObj (id : nat).

Global Instance value_eq_dec : EqDecision value.
Proof. solve_decision. Defined.

Abbreviation Payload := (gmap string value).

Inductive FieldType :=
  | TString | TNumber | TBoolean | TDatetime | TReference | TObject | TRichText.

Definition FieldType_eqb (a b : FieldType) : bool :=
  match a, b with
  | TString, TString | TNumber, TNumber | TBoolean, TBoolean
  | TDatetime, TDatetime | TReference, TReference | TObject, TObject
  | TRichText, TRichText => true
  | _, _ => false
  end.

(** [TinaFieldInner<true>]: name, type, the optional [indexed] flag and the
    optional [isBody] flag. *)
Record TinaField := {
  field_name : string;
  field_type : FieldType;
  field_indexed : option bool;
  field_isBody : option bool;
}.

Record Template := {
  tmpl_namespace : list string;
  tmpl_fields : list TinaField;
}.

Record CollectionIndex := {
  index_name : string;
  index_fields : list string;
}.

(** A collection of the enriched schema: a collection with [fields] or
    one with [templates]; [indexes] are the user-declared composite ones. *)
Record Collection := {
  coll_name : string;
  coll_path : string;
  coll_format : option string;
  coll_namespace : list string;
  coll_fields : option (list TinaField);
  coll_templates : option (list Template);
  coll_indexes : option (list CollectionIndex);
}.

(** [TinaSchema]: the collections, in order ([getCollections]). *)
Definition Schema := list Collection.

(** ** Index definitions ([./datalayer] types) *)

Record Pad := { fillString : string; maxLength : nat }.

Record IndexField := {
  if_name : string;
  if_type : option FieldType;
  if_pad : option Pad;
}.

Record IndexDefinition := { idx_fields : list IndexField }.

Definition DEFAULT_COLLECTION_SORT_KEY : string := "__filepath__".
Definition DEFAULT_NUMERIC_LPAD : nat := 4.

(** The skip test of the field loop of [getIndexDefinitions]:
    [(field.indexed !== undefined && field.indexed === false) ||
     field.type === 'object']. *)
Definition skipField (f : TinaField) : bool :=
  match field_indexed f with Some false => true | _ => false end
  || FieldType_eqb (field_type f) TObject.

Definition singleFieldIndex (f : TinaField) : IndexDefinition :=
  {| idx_fields :=
       [{| if_name := field_name f;
           if_type := Some (field_type f);
           if_pad := if FieldType_eqb (field_type f) TNumber
                     then Some {| fillString := "0"; maxLength := DEFAULT_NUMERIC_LPAD |}
                     else None |}] |}.

Definition fieldIndexDefinitions (fs : list TinaField)
    (defs : gmap string IndexDefinition) : gmap string IndexDefinition :=
  foldl (fun d f => if skipField f then d else <[field_name f := singleFieldIndex f]> d)
    defs fs.

(** [(collection.fields as ...).find(...)?.type]: with no [fields] array
    the call [undefined.find] throws a TypeError, modelled by [None]. *)
Definition compositeField (fields : option (list TinaField)) (n : string)
    : option IndexField :=
  match fields with
  | None => None
  | Some fs =>
      Some {| if_name := n;
              if_type := option_map field_type (find (fun f => String.eqb n (field_name f)) fs);
              if_pad := None |}
  end.

Fixpoint mapOpt {A B} (f : A -> option B) (l : list A) : option (list B) :=
  match l with
  | [] => Some []
  | x :: l' => match f x with
               | Some y => match mapOpt f l' with Some ys => Some (y :: ys) | None => None end
               | None => None
               end
  end.

Fixpoint indexesIndexDefinitions (fields : option (list TinaField))
    (ixs : list CollectionIndex) (defs : gmap string IndexDefinition)
    : option (gmap string IndexDefinition) :=
  match ixs with
  | [] => Some defs
  | ix :: ixs' =>
      match mapOpt (compositeField fields) (index_fields ix) with
      | Some ifs => indexesIndexDefinitions fields ixs' (<[index_name ix := {| idx_fields := ifs |}]> defs)
      | None => None
      end
  end.

(** The body of the [for (const collection of collections)] loop: the table
    of one collection, or [None] when it throws. *)
Definition collectionIndexDefinitions (c : Collection)
    : option (gmap string IndexDefinition) :=
  let defs0 : gmap string IndexDefinition :=
    {[ DEFAULT_COLLECTION_SORT_KEY := {| idx_fields := [] |} ]} in
  let defs1 := match coll_fields c with
               | Some fs => fieldIndexDefinitions fs defs0
               | None => defs0
               end in
  match coll_indexes c with
  | Some ixs => indexesIndexDefinitions (coll_fields c) ixs defs1
  | None => Some defs1
  end.

(** ** The key-value store ([./level]) and the bridge *)

(** Values stored in the level: a document payload (root sublevel), the
    empty marker of an index entry, the generated schema and lookup
    records. *)
Inductive LVal :=
  | LDoc (p : Payload)
  | LMarker
  | LSchema (s : Schema)
  | LLookup.

(** The store: a key of a sublevel ([ROOT_PREFIX] = ["~"], or
    [collection/sortKey]) maps to its value. *)
Abbreviation Store := (gmap (list string * string) LVal).

Definition ROOT_PREFIX : string := "~".
Definition rootSublevel : list string := [ROOT_PREFIX].
Definition indexSublevel (collection sort : string) : list string := [collection; sort].

Inductive BatchOp :=
  | BPut (sublevel : list string) (key : string) (v : LVal)
  | BDel (sublevel : list string) (key : string).

Definition applyOp (st : Store) (op : BatchOp) : Store :=
  match op with
  | BPut sl k v => <[(sl, k) := v]> st
  | BDel sl k => delete (sl, k) st
  end.

(** [level.batch(ops)]: the ops in order, atomically. *)
Definition applyBatch (st : Store) (ops : list BatchOp) : Store := foldl applyOp st ops.

(** The bridge's files; the file-format encoder ([stringifyFile] of
    [./util]) is an external collaborator, so a file keeps its encoder
    inputs (payload, extension, union flag) symbolically. *)
Inductive File := Stringified (p : Payload) (ext : string) (union : bool).

(** ** Exceptions *)

Inductive Exn :=
  | ENotFound (key : string)                          (* LEVEL_NOT_FOUND *)
  | EError (msg : string)                             (* new Error(msg) *)
  | ETypeError                                        (* property of undefined *)
  | EGraphQL (msg : string)                           (* GraphQLError *)
  | ESchema                                           (* createSchema failure *)
  | EFetch (msg file : string) (coll : option string) (orig : Exn). (* TinaFetchError *)

(** ** The [Database] instance and its state-and-exception monad *)

(** The instance: the level store, the bridge's files, the three caches
    ([tinaSchema], [_lookup], [collectionIndexDefinitions]) and, since the
    bridge is external I/O whose promises may reject, the paths on which
    a bridge write or delete rejects, with the error it rejects with. *)
Record DB := {
  db_level : Store;
  db_bridge : gmap string File;
  db_tinaSchema : option Schema;
  db_lookup : option LVal;
  db_cidx : option (gmap string (gmap string IndexDefinition));
  db_bridgeFaults : gmap string Exn;
}.

Inductive outcome (A : Type) := Ret (a : A) | Raise (e : Exn).
Arguments Ret {A} a.
Arguments Raise {A} e.

(** An async method: effects on the instance persist when it throws. *)
Definition M (A : Type) : Type := DB -> outcome A * DB.

Global Instance M_ret : MRet M := fun A a db => (Ret a, db).
Global Instance M_bind : MBind M := fun A B (k : A -> M B) (m : M A) db =>
  match m db with
  | (Ret a, db') => k a db'
  | (Raise e, db') => (Raise e, db')
  end.

Definition raise {A} (e : Exn) : M A := fun db => (Raise e, db).
Definition getDB : M DB := fun db => (Ret db, db).
Definition modifyDB (f : DB -> DB) : M unit := fun db => (Ret tt, f db).

(** [try { m } catch (e) { h(e) }]. *)
Definition catchM {A} (m : M A) (h : Exn -> M A) : M A := fun db =>
  match m db with
  | (Ret a, db') => (Ret a, db')
  | (Raise e, db') => h e db'
  end.

Definition setLevel (st : Store) (db : DB) : DB :=
  {| db_level := st; db_bridge := db_bridge db; db_tinaSchema := db_tinaSchema db;
     db_lookup := db_lookup db; db_cidx := db_cidx db; db_bridgeFaults := db_bridgeFaults db |}.
Definition setBridge (b : gmap string File) (db : DB) : DB :=
  {| db_level := db_level db; db_bridge := b; db_tinaSchema := db_tinaSchema db;
     db_lookup := db_lookup db; db_cidx := db_cidx db; db_bridgeFaults := db_bridgeFaults db |}.
Definition setTinaSchema (s : option Schema) (db : DB) : DB :=
  {| db_level := db_level db; db_bridge := db_bridge db; db_tinaSchema := s;
     db_lookup := db_lookup db; db_cidx := db_cidx db; db_bridgeFaults := db_bridgeFaults db |}.
Definition setLookup (l : option LVal) (db : DB) : DB :=
  {| db_level := db_level db; db_bridge := db_bridge db; db_tinaSchema := db_tinaSchema db;
     db_lookup := l; db_cidx := db_cidx db; db_bridgeFaults := db_bridgeFaults db |}.
Definition setCidx (t : option (gmap string (gmap string IndexDefinition))) (db : DB) : DB :=
  {| db_level := db_level db; db_bridge := db_bridge db; db_tinaSchema := db_tinaSchema db;
     db_lookup := db_lookup db; db_cidx := t; db_bridgeFaults := db_bridgeFaults db |}.

(** [level.sublevel(sl).get(key)]: throws [LEVEL_NOT_FOUND] when absent. *)
Definition levelGet (sl : list string) (key : string) : M LVal :=
  db ← getDB;
  match db_level db !! (sl, key) with
  | Some v => mret v
  | None => raise (ENotFound key)
  end.

Definition levelBatch (ops : list BatchOp) : M unit :=
  modifyDB (fun db => setLevel (applyBatch (db_level db) ops) db).

(** A bridge call on [path]: it rejects, with no effect, on a faulty
    path, and otherwise updates the bridge's files. *)
Definition bridgeIO (path : string) (f : gmap string File -> gmap string File) : M unit :=
  db ← getDB;
  match db_bridgeFaults db !! path with
  | Some e => raise e
  | None => modifyDB (fun db => setBridge (f (db_bridge db)) db)
  end.

(** [this.bridge.put(path, file)]. *)
Definition bridgePut (path : string) (f : File) : M unit :=
  bridgeIO path (insert path f).

(** [this.bridge.delete(path)]. *)
Definition bridgeDelete (path : string) : M unit :=
  bridgeIO path (delete path).

(** [normalizePath] of [./util].
    Modelled from the spec: the helper is not in the sources; the spec keys
    primary records by the "normalized", "forward-slashed" path, so every
    backslash becomes a forward slash. *)
Fixpoint normalizePath (s : string) : string :=
  match s with
  | EmptyString => EmptyString
  | String c s' => String (if Ascii.eqb c "\"%char then "/"%char else c) (normalizePath s')
  end.

Definition GENERATED_FOLDER : string := ".tina/__generated__".
Definition schemaPath : string := normalizePath (GENERATED_FOLDER +:+ "/_schema.json").

(** ** Schema and caches *)

(** [getTinaSchema] then [createSchema({ schema })]; the stored schema is
    already the enriched one, so [createSchema] only checks its shape. *)
Definition getTinaSchema : M Schema :=
  v ← levelGet rootSublevel schemaPath;
  match v with
  | LSchema s => mret s
  | _ => raise ESchema
  end.

Definition getSchema : M Schema :=
  db ← getDB;
  match db_tinaSchema db with
  | Some s => mret s
  | None =>
      s ← getTinaSchema;
      _ ← modifyDB (setTinaSchema (Some s));
      mret s
  end.

(** [clearCache]: [this.tinaSchema = null; this._lookup = null]. *)
Definition clearCache (db : DB) : DB := setLookup None (setTinaSchema None db).

(** The loop of [getIndexDefinitions]: each collection's table is written
    into [this.collectionIndexDefinitions] (created on first use). *)
Fixpoint buildIndexDefinitions (cs : list Collection) : M unit :=
  match cs with
  | [] => mret tt
  | c :: cs' =>
      match collectionIndexDefinitions c with
      | None => raise ETypeError
      | Some defs =>
          _ ← modifyDB (fun db =>
                setCidx (Some (<[coll_name c := defs]> (default ∅ (db_cidx db)))) db);
          buildIndexDefinitions cs'
      end
  end.

Definition getIndexDefinitions : M (option (gmap string (gmap string IndexDefinition))) :=
  db ← getDB;
  match db_cidx db with
  | Some t => mret (Some t)
  | None =>
      schema ← getSchema;
      _ ← buildIndexDefinitions schema;
      db' ← getDB;
      mret (db_cidx db')
  end.

(** ** Helpers of [path] and of the schema *)

Definition SYSTEM_FILES : list string := ["_schema"; "_graphql"; "_lookup"].

(** [SYSTEM_FILES.includes(filepath)]. *)
Definition isSystemFile (filepath : string) : bool :=
  existsb (String.eqb filepath) SYSTEM_FILES.

(** [path.basename] (POSIX): the part after the last [/]. *)
Fixpoint basename_go (s acc : string) : string :=
  match s with
  | EmptyString => acc
  | String c s' => if Ascii.eqb c "/"%char then basename_go s' "" else basename_go s' (acc +:+ String c "")
  end.

(** Position of the last [.] of a string. *)
Fixpoint lastDot_go (s : string) (i : nat) (acc : option nat) : option nat :=
  match s with
  | EmptyString => acc
  | String c s' => lastDot_go s' (S i) (if Ascii.eqb c "."%char then Some i else acc)
  end.

(** [path.extname]: from the last [.] of the base name, unless that dot
    starts the base name. *)
Definition extname (filepath : string) : string :=
  let b := basename_go filepath "" in
  match lastDot_go b 0 None with
  | Some (S i) => substring (S i) (String.length b - S i) b
  | _ => ""
  end.

Definition lastItem {A} (l : list A) : option A := last l.

(** [hasOwnProperty(obj, prop)]. *)
Definition hasOwnProperty (obj : Payload) (prop : string) : bool :=
  bool_decide (is_Some (obj !! prop)).

(** [obj[key]]: [undefined] when absent. *)
Definition getProp (obj : Payload) (key : string) : value := default VUndef (obj !! key).

(** [tinaSchema.getCollectionByFullPath] of [@tinacms/schema-tools].
    Modelled from the spec: the schema tools are not in the sources; a
    collection has a "root path prefix", so the collection of a file is the
    first one whose path, followed by [/], starts the normalized file path. *)
Definition getCollectionByFullPath (schema : Schema) (filepath : string) : option Collection :=
  find (fun c => String.prefix (coll_path c +:+ "/") (normalizePath filepath)) schema.

Inductive TemplateInfo :=
  | TIObject (t : Template)
  | TIUnion (ts : list Template).

(** [tinaSchema.getTemplatesForCollectable(collection)].
    Modelled from the spec: a collection with templates is a union of them,
    otherwise its fields form its one template. *)
Definition getTemplatesForCollectable (c : Collection) : TemplateInfo :=
  match coll_templates c with
  | Some ts => TIUnion ts
  | None => TIObject {| tmpl_namespace := coll_namespace c;
                        tmpl_fields := default [] (coll_fields c) |}
  end.

(** [tinaSchema.getCollectionAndTemplateByFullPath(filepath, templateName)].
    Modelled from the spec: the collection of the path, and its template;
    for a union the one whose last namespace segment is [templateName]. *)
Definition getCollectionAndTemplateByFullPath (schema : Schema) (filepath : string)
    (templateName : option string) : option (Collection * Template) :=
  match getCollectionByFullPath schema filepath with
  | None => None
  | Some c =>
      match getTemplatesForCollectable c with
      | TIObject t => Some (c, t)
      | TIUnion ts =>
          match templateName with
          | None => None
          | Some n =>
              match find (fun t => bool_decide (lastItem (tmpl_namespace t) = Some n)) ts with
              | Some t => Some (c, t)
              | None => None
              end
          end
      end
  end.

Definition collectionForPath (filepath : string) : M (option Collection) :=
  schema ← getSchema;
  mret (getCollectionByFullPath schema filepath).

(** [template.fields.find(...)]: the string or rich-text field with
    [isBody]. *)
Definition isBodyField (f : TinaField) : bool :=
  (FieldType_eqb (field_type f) TString || FieldType_eqb (field_type f) TRichText)
  && match field_isBody f with Some true => true | _ => false end.

Definition bodyField (t : Template) : option TinaField := find isBodyField (tmpl_fields t).

(** ** The index-key codec and [makeIndexOpsForDocument] ([./datalayer]) *)

(** Modelled from the spec: [INDEX_KEY_FIELD_SEPARATOR], a single reserved
    byte; the spec names [\x00]. *)
Definition INDEX_KEY_FIELD_SEPARATOR : string := String (Ascii.ascii_of_nat 0) "".

Fixpoint repeatString (s : string) (n : nat) : string :=
  match n with 0 => "" | S n' => s +:+ repeatString s n' end.

(** [s.padStart(maxLength, fillString)] for a one-character fill. *)
Definition padStart (s : string) (p : Pad) : string :=
  repeatString (fillString p) (maxLength p - String.length s) +:+ s.

(** Modelled from the spec (section 4.1): strings, datetimes and references
    as their text, booleans as "0"/"1", numbers left-padded; negative
    numbers and non-scalar values are rejected. *)
Definition encodeValue (pad : option Pad) (v : value) : option string :=
  match v with
  | VStr s => Some s
  | VBool b => Some (if b then "1" else "0")
  | VNum n =>
      if (n <? 0)%Z then None
      else Some (match pad with Some p => padStart (pretty n) p | None => pretty n end)
  | _ => None
  end.

(** Modelled from the spec: the composite key
    [f1 SEP f2 SEP ... fN SEP path]; the default index (no field) is keyed
    by the path alone. A field the payload does not encode gives no key. *)
Definition makeKeyForField (def : IndexDefinition) (data : Payload) (filepath : string)
    : option string :=
  match mapOpt (fun f => encodeValue (if_pad f) (getProp data (if_name f))) (idx_fields def) with
  | Some parts => Some (foldr (fun s acc => s +:+ INDEX_KEY_FIELD_SEPARATOR +:+ acc) filepath parts)
  | None => None
  end.

Inductive OpType := OpPut | OpDel.

(** Modelled from the spec: the op of one index of [makeIndexOpsForDocument]
    ([./datalayer]), on the document's key in sublevel [collection/sortKey];
    none when the payload gives no key. *)
Definition makeIndexOp (filepath c : string) (data : Payload) (opType : OpType)
    (entry : string * IndexDefinition) : option BatchOp :=
  let '(sort, def) := entry in
  match makeKeyForField def data filepath with
  | Some k => Some (match opType with
                    | OpPut => BPut (indexSublevel c sort) k LMarker
                    | OpDel => BDel (indexSublevel c sort) k
                    end)
  | None => None
  end.

(** The ops of [makeIndexOpsForDocument] for collection [c] whose index
    definitions are [defs]: one op per index. *)
Definition indexOps (filepath c : string) (defs : gmap string IndexDefinition) (data : Payload)
    (opType : OpType) : list BatchOp :=
  omap (makeIndexOp filepath c data opType) (map_to_list defs).

(** JS truthiness of an optional string. *)
Definition truthyStr (s : option string) : bool :=
  match s with Some s' => negb (String.eqb s' "") | None => false end.

(** Modelled from the spec: [makeIndexOpsForDocument] of [./datalayer].
    [if (collection)]: no op for a falsy collection name; otherwise one op
    per entry of [Object.entries(indexDefinitions)], which throws a
    TypeError ([None]) when the collection has no index definitions (the
    spec's IndexError, unrecoverable for the write). *)
Definition makeIndexOpsForDocument (filepath : string) (collection : option string)
    (indexDefinitions : option (gmap string IndexDefinition)) (data : Payload)
    (opType : OpType) : option (list BatchOp) :=
  if truthyStr collection then
    match collection, indexDefinitions with
    | Some c, Some defs => Some (indexOps filepath c defs data opType)
    | _, _ => None
    end
  else Some [].

(** A synchronous call that returns, or throws a TypeError ([None]). *)
Definition orTypeError {A} (o : option A) : M A :=
  match o with Some a => mret a | None => raise ETypeError end.

(** ** [Database.get], [stringifyFile], [put] and [delete] *)

(** A stored root value read as an object. Only document payloads are
    modelled as objects; the generated config records read as empty. *)
Definition lvalPayload (v : LVal) : Payload :=
  match v with LDoc p => p | _ => ∅ end.

Definition isMarkdownExt (ext : string) : bool :=
  String.eqb ext ".md" || String.eqb ext ".mdx".

Definition isMarkdownFormat (fmt : option string) : bool :=
  match fmt with Some f => String.eqb f "md" || String.eqb f "mdx" | None => false end.

(** [s.replace(sub, '')]: the first occurrence only. *)
Definition replaceFirst (s sub : string) : string :=
  match String.index 0 sub s with
  | Some i => substring 0 i s +:+ substring (i + String.length sub) (String.length s) s
  | None => s
  end.

(** [s.replace(/^\/|\/$/g, '')]. *)
Definition stripSlashes (s : string) : string :=
  let s1 := match s with String "/"%char r => r | _ => s end in
  let n := String.length s1 in
  if (0 <? n)%nat && String.eqb (substring (n - 1) 1 s1) "/" then substring 0 (n - 1) s1 else s1.

Definition templateValue (t : Template) : value :=
  match lastItem (tmpl_namespace t) with Some n => VStr n | None => VUndef end.

Definition get (filepath : string) : M Payload :=
  if isSystemFile filepath then raise (EError ("Unexpected get for config file " +:+ filepath))
  else
    tinaSchema ← getSchema;
    let extension := extname filepath in
    stored ← levelGet rootSublevel (normalizePath filepath);
    let contentObject := lvalPayload stored in
    let templateName :=
      match contentObject !! "_template" with Some (VStr s) => Some s | _ => None end in
    match getCollectionAndTemplateByFullPath tinaSchema filepath templateName with
    | None => raise (EError ("Unable to find template for " +:+ filepath))
    | Some (collection, template) =>
        let data :=
          match bodyField template with
          | Some field =>
              if isMarkdownExt extension && hasOwnProperty contentObject "$_body"
              then <[field_name field := getProp contentObject "$_body"]>
                     (delete "$_body" contentObject)
              else contentObject
          | None => contentObject
          end in
        mret (<["_id" := VStr filepath]>
             (<["_relativePath" := VStr (stripSlashes (replaceFirst filepath (coll_path collection)))]>
             (<["_template" := templateValue template]>
             (<["_keepTemplateKey" := VBool (bool_decide (is_Some (coll_templates collection)))]>
             (<["_collection" := VStr (coll_name collection)]> data)))))
    end.

(** The payload [stringifyFile] stores: for a markdown collection with a
    body field, the body moves under [$_body]. *)
Definition bodyPayload (fmt : option string) (field : option TinaField) (data : Payload)
    : Payload :=
  match field with
  | Some f =>
      if isMarkdownFormat fmt
      then <["$_body" := getProp data (field_name f)]> (delete (field_name f) data)
      else data
  | None => data
  end.

Definition stringifyFile (filepath : string) (data : Payload) : M (File * Payload) :=
  if isSystemFile filepath then raise (EError ("Unexpected put for config file " +:+ filepath))
  else
    tinaSchema ← getSchema;
    match getCollectionByFullPath tinaSchema filepath with
    | None => raise ETypeError
    | Some collection =>
        let templateInfo := getTemplatesForCollectable collection in
        let isUnion := match templateInfo with TIUnion _ => true | _ => false end in
        t ← match templateInfo with
            | TIObject t => mret (Some t)
            | TIUnion ts =>
                if hasOwnProperty data "_template"
                then mret (find (fun t => bool_decide (option_map VStr (lastItem (tmpl_namespace t))
                                                        = Some (getProp data "_template"))) ts)
                else raise (EError "Expected _template to be provided for document in an ambiguous collection")
            end;
        match t with
        | None => raise (EError "Unable to determine template")
        | Some template =>
            let payload := bodyPayload (coll_format collection) (bodyField template) data in
            mret (Stringified payload (extname filepath) isUnion, payload)
        end
    end.

(** The read-before-write of [put]: [LEVEL_NOT_FOUND] means no record. *)
Definition fetchExisting (key : string) : M (option LVal) :=
  catchM (v ← levelGet rootSublevel key; mret (Some v))
         (fun e => match e with ENotFound _ => mret None | _ => raise e end).

Definition collectionIndexDefinitionsFor (collection : option string)
    : M (option (gmap string IndexDefinition)) :=
  match collection with
  | Some c => if truthyStr collection
              then t ← getIndexDefinitions; mret (t ≫= fun m => m !! c)
              else mret None
  | None => mret None
  end.

Definition put (filepath : string) (data : Payload) (collection : option string) : M bool :=
  catchM
    (_ ← (if isSystemFile filepath
          then raise (EError ("Unexpected put for config file " +:+ filepath))
          else
            cid ← collectionIndexDefinitionsFor collection;
            let normalizedPath := normalizePath filepath in
            '(stringified, payload) ← stringifyFile filepath data;
            _ ← bridgePut normalizedPath stringified;
            putOps ← orTypeError (makeIndexOpsForDocument normalizedPath collection cid payload OpPut);
            existingItem ← fetchExisting normalizedPath;
            delOps ← match existingItem with
                     | Some item => orTypeError (makeIndexOpsForDocument normalizedPath collection
                                                   cid (lvalPayload item) OpDel)
                     | None => mret []
                     end;
            levelBatch (delOps ++ putOps ++ [BPut rootSublevel normalizedPath (LDoc payload)]));
     mret true)
    (fun e => raise (EFetch ("Error in PUT for " +:+ filepath) filepath collection e)).

Definition delete (filepath : string) : M unit :=
  collection ← collectionForPath filepath;
  cid ← (match collection with
         | Some c => t ← getIndexDefinitions; mret (t ≫= fun m => m !! coll_name c)
         | None => mret None
         end);
  let itemKey := normalizePath filepath in
  item ← levelGet rootSublevel itemKey;
  _ ← (match collection with
       | None => raise ETypeError                 (* [collection.name] of undefined *)
       | Some c =>
           ops ← orTypeError (makeIndexOpsForDocument filepath (Some (coll_name c)) cid
                                (lvalPayload item) OpDel);
           levelBatch (ops ++ [BDel rootSublevel itemKey])
       end);
  bridgeDelete (normalizePath filepath).

(** ** [Database.query]: limit, iteration bounds, the scan loop, hydration *)

Module Query.

(** JS truthiness of an optional number ([undefined], [null] and [0] are
    falsy). *)
Definition truthyZ (n : option Z) : bool :=
  match n with Some k => negb (Z.eqb k 0) | None => false end.

(** [let limit = 50; if (first) limit = first; else if (last) limit = last]. *)
Definition computeLimit (first last : option Z) : Z :=
  match first, last with
  | Some f, _ => if truthyZ (Some f) then f
                 else match last with Some l => if truthyZ (Some l) then l else 50 | None => 50 end
  | None, Some l => if truthyZ (Some l) then l else 50
  | None, None => 50
  end.

(** The base64 alphabet (standard and URL-safe, as [Buffer] accepts). *)
Definition b64Value (c : ascii) : option nat :=
  let n := nat_of_ascii c in
  (if (65 <=? n) && (n <=? 90) then Some (n - 65)
   else if (97 <=? n) && (n <=? 122) then Some (n - 71)
   else if (48 <=? n) && (n <=? 57) then Some (n + 4)
   else if (n =? 43) || (n =? 45) then Some 62
   else if (n =? 47) || (n =? 95) then Some 63
   else None)%nat.

(** The sextets of a base64 text: stops at the padding, skips other
    characters. *)
Fixpoint b64Sextets (s : string) : list nat :=
  match s with
  | EmptyString => []
  | String c s' =>
      if Ascii.eqb c "="%char then []
      else match b64Value c with Some v => v :: b64Sextets s' | None => b64Sextets s' end
  end.

Fixpoint b64Bytes (l : list nat) : list nat :=
  match l with
  | a :: b :: c :: d :: r =>
      [a * 4 + b / 16; (b mod 16) * 16 + c / 4; (c mod 4) * 64 + d] ++ b64Bytes r
  | [a; b; c] => [a * 4 + b / 16; (b mod 16) * 16 + c / 4]
  | [a; b] => [a * 4 + b / 16]
  | _ => []
  end.

Fixpoint stringOfBytes (l : list nat) : string :=
  match l with [] => "" | b :: r => String (ascii_of_nat b) (stringOfBytes r) end.

(** [atob] of [../util].
    Modelled from the spec: cursors are "base64 of the raw key"; decoding
    is [Buffer.from(s, 'base64')], bytes read back one character each. *)
Definition atob (s : string) : string := stringOfBytes (b64Bytes (b64Sextets s)).

Definition b64Char (n : nat) : ascii :=
  (if n <? 26 then ascii_of_nat (n + 65)
   else if n <? 52 then ascii_of_nat (n + 71)
   else if n <? 62 then ascii_of_nat (n - 4)
   else if n =? 62 then "+" else "/")%nat%char.

Fixpoint b64Encode (l : list nat) : string :=
  match l with
  | a :: b :: c :: r =>
      String (b64Char (a / 4)) (String (b64Char ((a mod 4) * 16 + b / 16))
        (String (b64Char ((b mod 16) * 4 + c / 64)) (String (b64Char (c mod 64)) (b64Encode r))))
  | [a; b] =>
      String (b64Char (a / 4)) (String (b64Char ((a mod 4) * 16 + b / 16))
        (String (b64Char ((b mod 16) * 4)) "="))
  | [a] => String (b64Char (a / 4)) (String (b64Char ((a mod 4) * 16)) "==")
  | [] => ""
  end.

Fixpoint bytesOfString (s : string) : list nat :=
  match s with EmptyString => [] | String c s' => nat_of_ascii c :: bytesOfString s' end.

(** [btoa] of [../util]. Modelled from the spec: base64 of the raw key. *)
Definition btoa (s : string) : string := b64Encode (bytesOfString s).

(** The bounds object handed to [sublevel.iterator]. *)
Record QueryRange := {
  q_gt : option string;
  q_gte : option string;
  q_lt : option string;
  q_lte : option string;
  q_reverse : bool;
}.

(** [makeFilterSuffixes(filterChain, indexDefinition)]: the encoded left
    and right prefixes of the filter chain. *)
Record FilterSuffixes := { fs_left : option string; fs_right : option string }.

Definition MAX_BYTE : string := String (ascii_of_nat 255) "".

(** Lines 556-603 of [query]: [reverse = !!last]; [gt] from [after], or
    else [lt] from [before]; then the fallbacks [gte] and [lte].
    [filterSuffixes] is [undefined] when no index definition exists. *)
Definition queryBounds (after before : option string) (last : option Z)
    (filterSuffixes : option FilterSuffixes) : QueryRange :=
  let gt0 := if truthyStr after then option_map atob after else None in
  let lt0 := if truthyStr after then None
             else if truthyStr before then option_map atob before else None in
  let left := filterSuffixes ≫= fs_left in
  let right := filterSuffixes ≫= fs_right in
  let gte := if truthyStr gt0 then None
             else Some (if truthyStr left then default "" left else "") in
  let lte := if truthyStr lt0 then None
             else Some (if truthyStr right then default "" right +:+ MAX_BYTE else MAX_BYTE) in
  {| q_gt := gt0; q_gte := gte; q_lt := lt0; q_lte := lte; q_reverse := truthyZ last |}.

(** The [for await] loop of [query] over the iterated keys. [matchKey]
    stands for the regex match with its arity test (the file path of the
    key, or [None] to skip it); [itemFilter] for the residual filter on the
    candidate. Returns the edges (cursor, path), [hasPreviousPage] and
    [hasNextPage]. *)
Fixpoint scanEdges (limit : Z) (reverse : bool) (matchKey : string -> option string)
    (itemFilter : string -> bool) (keys : list string) (edges : list (string * string))
    : list (string * string) * bool * bool :=
  match keys with
  | [] => (edges, false, false)
  | key :: keys' =>
      match matchKey key with
      | None => scanEdges limit reverse matchKey itemFilter keys' edges
      | Some filepath =>
          if negb (itemFilter key) then scanEdges limit reverse matchKey itemFilter keys' edges
          else if negb (Z.eqb limit (-1)) && (Z.of_nat (length edges) >=? limit)%Z
          then (edges, reverse, negb reverse)
          else scanEdges limit reverse matchKey itemFilter keys' (edges ++ [(key, filepath)])
      end
  end.

(** What a hydrator call throws: an [Error] instance, or any other
    value. *)
Inductive Thrown :=
  | ThrownError (message : string)
  | ThrownValue (v : value).

Definition isErrorInstance (t : Thrown) : bool :=
  match t with ThrownError _ => true | ThrownValue _ => false end.

Inductive HydrateResult (Node : Type) :=
  | HOk (node : Node)
  | HThrow (t : Thrown).
Arguments HOk {Node} node.
Arguments HThrow {Node} t.

Inductive QueryExn :=
  | TinaQueryError (originalError : Thrown) (file : string) (collection : string)
  | Rethrown (t : Thrown).

Definition includes (s sub : string) : bool :=
  match String.index 0 sub s with Some _ => true | None => false end.

(** The hydration of lines 660-684: [sequential] over the edges; the first
    failure is wrapped, unless it is not an [Error] or its path contains
    the generated GraphQL config file. *)
Fixpoint hydrateEdges {Node} (collection : string) (hydrator : string -> HydrateResult Node)
    (edges : list (string * string)) : (list (Node * string)) + QueryExn :=
  match edges with
  | [] => inl []
  | (cursor, path) :: edges' =>
      match hydrator path with
      | HOk node =>
          match hydrateEdges collection hydrator edges' with
          | inl rest => inl ((node, btoa cursor) :: rest)
          | inr e => inr e
          end
      | HThrow t =>
          if isErrorInstance t && negb (includes path ".tina/__generated__/_graphql.json")
          then inr (TinaQueryError t path collection)
          else inr (Rethrown t)
      end
  end.

End Query.

(** ** [indexStatusCallbackWrapper] and the long-running operations *)

Module IndexStatus.

Inductive Status :=
  | Inprogress
  | Complete
  | Failed (error : Exn).

(** What an operation does, in order: the status events it emits and the
    store work it performs. *)
Inductive Event :=
  | EvStatus (s : Status)
  | EvWork (n : nat).

(** An async computation that logs its events and may throw. *)
Definition W (A : Type) : Type := list Event -> outcome A * list Event.

Global Instance W_ret : MRet W := fun A a tr => (Ret a, tr).
Global Instance W_bind : MBind W := fun A B (k : A -> W B) (m : W A) tr =>
  match m tr with
  | (Ret a, tr') => k a tr'
  | (Raise e, tr') => (Raise e, tr')
  end.

Definition raiseW {A} (e : Exn) : W A := fun tr => (Raise e, tr).

Definition catchW {A} (m : W A) (h : Exn -> W A) : W A := fun tr =>
  match m tr with
  | (Ret a, tr') => (Ret a, tr')
  | (Raise e, tr') => h e tr'
  end.

(** A body: the work it performs, then whether it throws. *)
Record Body := { body_work : list nat; body_error : option Exn }.

Definition runBody (b : Body) : W unit := fun tr =>
  (match body_error b with None => Ret tt | Some e => Raise e end,
   (tr ++ map EvWork (body_work b))%list).

Section Wrapper.

(** The registered [indexStatusCallback]: whether the promise it returns
    for an event rejects. *)
Variable indexStatusCallback : Status -> option Exn.

Definition emit (s : Status) : W unit := fun tr =>
  (match indexStatusCallback s with None => Ret tt | Some e => Raise e end,
   (tr ++ [EvStatus s])%list).

Definition indexStatusCallbackWrapper (fn : W unit) : W unit :=
  _ ← emit Inprogress;
  catchW (_ ← fn; emit Complete)
         (fun error => _ ← emit (Failed error); raiseW error).

(** [indexContent] runs its body in the wrapper; [indexContentByPaths]
    and [deleteContentByPaths] then flush the pending batch. *)
Definition longRunningOp (fn : Body) (flush : Body) : W unit :=
  _ ← indexStatusCallbackWrapper (runBody fn);
  runBody flush.

End Wrapper.

End IndexStatus.

(** ** Concrete schema and instances used by the examples *)

Definition fRank : TinaField :=
  {| field_name := "rank"; field_type := TNumber; field_indexed := None; field_isBody := None |}.
Definition fBody : TinaField :=
  {| field_name := "body"; field_type := TRichText; field_indexed := None; field_isBody := Some true |}.
Definition fTitle : TinaField :=
  {| field_name := "title"; field_type := TString; field_indexed := None; field_isBody := None |}.

(** A markdown collection [posts] with a number, a string and a rich-text
    body field. *)
Definition postsCollection : Collection :=
  {| coll_name := "posts"; coll_path := "posts"; coll_format := Some "md";
     coll_namespace := ["posts"]; coll_fields := Some [fRank; fTitle; fBody];
     coll_templates := None; coll_indexes := None |}.

(** A fresh instance whose store holds the generated schema. *)
Definition freshDB (schema : Schema) : DB :=
  {| db_level := {[ (rootSublevel, schemaPath) := LSchema schema ]};
     db_bridge := ∅; db_tinaSchema := None; db_lookup := None; db_cidx := None;
     db_bridgeFaults := ∅ |}.

(** An instance that memoized the table of an older schema ([posts] with
    only the default index), while its store now holds the new schema. *)
Definition staleTable : gmap string (gmap string IndexDefinition) :=
  {[ "posts" := {[ DEFAULT_COLLECTION_SORT_KEY := {| idx_fields := [] |} ]} ]}.
Definition staleDB : DB :=
  {| db_level := {[ (rootSublevel, schemaPath) := LSchema [postsCollection] ]};
     db_bridge := ∅; db_tinaSchema := Some []; db_lookup := Some LLookup;
     db_cidx := Some staleTable; db_bridgeFaults := ∅ |}.

(** The instance [db] with a bridge that rejects its calls on [path] with
    [e]. *)
Definition withBridgeFault (path : string) (e : Exn) (db : DB) : DB :=
  {| db_level := db_level db; db_bridge := db_bridge db; db_tinaSchema := db_tinaSchema db;
     db_lookup := db_lookup db; db_cidx := db_cidx db;
     db_bridgeFaults := <[path := e]> (db_bridgeFaults db) |}.

(** The index a single field gets, taken from the last field of that name
    that the field loop does not skip. *)
Definition lastIndexableField (fs : list TinaField) (k : string) : option TinaField :=
  find (fun f => String.eqb (field_name f) k && negb (skipField f)) (rev fs).

(** The composite index a name gets: the last one of that name among the
    collection's [indexes]. *)
Definition lastCompositeIndex (c : Collection) (k : string) : option CollectionIndex :=
  find (fun ix => String.eqb (index_name ix) k) (rev (default [] (coll_indexes c))).

(** The edges a scan keeps when nothing limits it. *)
Definition matchingEdges (matchKey : string -> option string) (itemFilter : string -> bool)
    (keys : list string) : list (string * string) :=
  omap (fun k => match matchKey k with
                 | Some fp => if itemFilter k then Some (k, fp) else None
                 | None => None
                 end) keys.

(** The upper and lower fallbacks of [query]. *)
Definition gteFallback (fs : option Query.FilterSuffixes) : string :=
  let left := fs ≫= Query.fs_left in if truthyStr left then default "" left else "".
Definition lteFallback (fs : option Query.FilterSuffixes) : string :=
  let right := fs ≫= Query.fs_right in
  if truthyStr right then default "" right +:+ Query.MAX_BYTE else Query.MAX_BYTE.

(** Every entry of index [sort] of [c] keyed [key] comes from the primary
    record at [np]. *)
Definition indexAgrees (st : Store) (c sort : string) (def : IndexDefinition) (np key : string)
    : Prop :=
  is_Some (st !! (indexSublevel c sort, key)) ->
  exists v, st !! (rootSublevel, np) = Some v /\ makeKeyForField def (lvalPayload v) np = Some key.

(** Keys whose trailing component is the path [np]. *)
Definition trailingPath (np key : string) : Prop :=
  key = np \/ exists pre, key = pre +:+ INDEX_KEY_FIELD_SEPARATOR +:+ np.

(** Two successive payloads of [posts/a.md]. *)
Definition c1Payload1 : Payload :=
  <["rank" := VNum 2]> (<["title" := VStr "a"]> {["body" := VStr "hi"]}).
Definition c1Payload2 : Payload :=
  <["rank" := VNum 9]> (<["title" := VStr "a"]> {["body" := VStr "yo"]}).

(** The table [getIndexDefinitions] builds for the schema [[postsCollection]]. *)
Definition postsDefs : gmap string IndexDefinition :=
  default ∅ (collectionIndexDefinitions postsCollection).
Definition postsTable : gmap string (gmap string IndexDefinition) := {[ "posts" := postsDefs ]}.


(** The template [stringifyFile] picks for [data] in collection [c]. *)
Definition templateChosen (c : Collection) (data : Payload) (t : Template) : Prop :=
  match getTemplatesForCollectable c with
  | TIObject t0 => t = t0
  | TIUnion ts =>
      hasOwnProperty data "_template" = true /\
      find (fun t' => bool_decide (option_map VStr (lastItem (tmpl_namespace t'))
                                   = Some (getProp data "_template"))) ts = Some t
  end.


(** The table the loop of [getIndexDefinitions] writes for the collections
    [cs], started from nothing: a later collection of the same name
    overwrites an earlier one. *)
Definition builtTable (cs : list Collection) : gmap string (gmap string IndexDefinition) :=
  list_to_map (rev (omap (fun c => pair (coll_name c) <$> collectionIndexDefinitions c) cs)).

(** A collection with a composite index but no [fields] array: the loop of
    [getIndexDefinitions] throws on it ([undefined.find]). *)
Definition tagsCollection : Collection :=
  {| coll_name := "tags"; coll_path := "tags"; coll_format := Some "md";
     coll_namespace := ["tags"]; coll_fields := None; coll_templates := Some [];
     coll_indexes := Some [{| index_name := "byLabel"; index_fields := ["label"] |}] |}.

(** [Database.addPendingDocument]: stringify first, then the collection and
    its index definitions, the bridge write, the read-before-write and one
    batch; no [try]/[catch] and no system-file check of its own. *)
Definition addPendingDocument (filepath : string) (data : Payload) : M unit :=
  '(stringifiedFile, payload) ← stringifyFile filepath data;
  collection ← collectionForPath filepath;
  collectionIndexDefinitions ←
    (match collection with
     | Some c => indexDefinitions ← getIndexDefinitions;
                 mret (indexDefinitions ≫= fun m => m !! coll_name c)
     | None => mret None
     end);
  let normalizedPath := normalizePath filepath in
  _ ← bridgePut normalizedPath stringifiedFile;
  putOps ← orTypeError (makeIndexOpsForDocument normalizedPath (coll_name <$> collection)
                          collectionIndexDefinitions payload OpPut);
  existingItem ← fetchExisting normalizedPath;
  delOps ← match existingItem with
           | Some item => orTypeError (makeIndexOpsForDocument normalizedPath (coll_name <$> collection)
                                         collectionIndexDefinitions (lvalPayload item) OpDel)
           | None => mret []
           end;
  levelBatch (delOps ++ putOps ++ [BPut rootSublevel normalizedPath (LDoc payload)]).

(** [Database.documentExists]: whether [get] returns, any error read as
    absence. *)
Definition documentExists (fullpath : string) : M bool :=
  catchM (_ ← get fullpath; mret true) (fun _ => mret false).

(** ** The batching of [deleteContentByPaths] and [indexContentByPaths] *)

(** The [while (operations.length >= 25)] loop of [enqueueOps]: whole
    batches of 25 pending ops go to [level.batch], in order. [fuel] bounds
    the iterations; each one removes 25 ops. *)
Fixpoint batchFull (fuel : nat) (st : Store) (operations : list BatchOp) : Store * list BatchOp :=
  match fuel with
  | 0 => (st, operations)
  | S fuel' =>
      if (25 <=? length operations)%nat
      then batchFull fuel' (applyBatch st (take 25 operations)) (drop 25 operations)
      else (st, operations)
  end.

(** [enqueueOps]: [operations.push(...ops)], then the loop above. The
    state is the store and the pending [operations]. *)
Definition enqueueOps (ops : list BatchOp) (s : Store * list BatchOp) : Store * list BatchOp :=
  let operations := (s.2 ++ ops)%list in
  batchFull (length operations) s.1 operations.

(** The final [while (operations.length)] loop, after the status wrapper
    returns: batches of at most 25 until nothing is pending. *)
Fixpoint batchRest (fuel : nat) (st : Store) (operations : list BatchOp) : Store * list BatchOp :=
  match fuel with
  | 0 => (st, operations)
  | S fuel' =>
      match operations with
      | [] => (st, [])
      | _ => batchRest fuel' (applyBatch st (take 25 operations)) (drop 25 operations)
      end
  end.

Definition flushOps (s : Store * list BatchOp) : Store * list BatchOp :=
  batchRest (length s.2) s.1 s.2.

(** ** Statements *)

(** Frame facts of the monad. *)
Lemma mbind_Ret {A B} (m : M A) (k : A -> M B) db a db' :
  m db = (Ret a, db') -> (m ≫= k) db = k a db'.
Proof. intros H. unfold mbind, M_bind. rewrite H. reflexivity. Qed.

Lemma mbind_Raise {A B} (m : M A) (k : A -> M B) db e db' :
  m db = (Raise e, db') -> (m ≫= k) db = (Raise e, db').
Proof. intros H. unfold mbind, M_bind. rewrite H. reflexivity. Qed.

(** C10 *)
(** Claim C10: for the reserved names [_schema], [_graphql] and [_lookup],
    [get], [stringifyFile] and [put] all throw and leave the whole
    instance (store, bridge and caches) unchanged; [put]'s error is the
    write-path [TinaFetchError] wrapping the config-file error. *)
Theorem C10_system_files_rejected (filepath : string) (Hsys : isSystemFile filepath = true)
    (db : DB) (data : Payload) (collection : option string) :
  get filepath db = (Raise (EError ("Unexpected get for config file " +:+ filepath)), db) /\
  stringifyFile filepath data db
    = (Raise (EError ("Unexpected put for config file " +:+ filepath)), db) /\
  put filepath data collection db
    = (Raise (EFetch ("Error in PUT for " +:+ filepath) filepath collection
                (EError ("Unexpected put for config file " +:+ filepath))), db).
Proof.
  unfold get, stringifyFile, put, catchM. rewrite Hsys.
  split; [reflexivity|]. split; [reflexivity|]. reflexivity.
Qed.

Lemma C10_system_files_rejected_witness :
  isSystemFile "_lookup" = true /\
  put "_lookup" {[ "title" := VStr "x" ]} (Some "posts") (freshDB [postsCollection])
    = (Raise (EFetch ("Error in PUT for " +:+ "_lookup") "_lookup" (Some "posts")
                (EError ("Unexpected put for config file " +:+ "_lookup"))),
       freshDB [postsCollection]).
Proof.
  split; [reflexivity|].
  apply (C10_system_files_rejected "_lookup" eq_refl (freshDB [postsCollection])
           {[ "title" := VStr "x" ]} (Some "posts")).
Defined.

(** C2 *)
(** Counterexample to claim C2: an instance that memoized the table of an
    older schema still returns it after [clearCache], while a rebuild from
    the stored schema would give [posts] a [rank] index. *)
Lemma C2_clearCache_keeps_index_table_cex :
  fst (getIndexDefinitions (clearCache staleDB))
  <> fst (getIndexDefinitions (setCidx None (clearCache staleDB))).
Proof.
  intros H.
  apply (f_equal (fun o => match o with
                           | Ret (Some t) => bool_decide (is_Some (t !! "posts" ≫= lookup "rank"))
                           | _ => false
                           end)) in H.
  vm_compute in H. discriminate H.
Qed.

(** Claim C2, as the code does it: [clearCache] resets the schema cache
    and the lookup-map cache only. The store, the bridge and the memoized
    index-definition table are kept, and [getIndexDefinitions] afterwards
    returns that same table without reading the schema again. *)
Theorem C2_clearCache_keeps_index_table (db : DB)
    (t : gmap string (gmap string IndexDefinition)) (Ht : db_cidx db = Some t) :
  db_tinaSchema (clearCache db) = None /\ db_lookup (clearCache db) = None /\
  db_level (clearCache db) = db_level db /\ db_bridge (clearCache db) = db_bridge db /\
  db_cidx (clearCache db) = Some t /\
  getIndexDefinitions (clearCache db) = (Ret (Some t), clearCache db).
Proof.
  unfold clearCache, setLookup, setTinaSchema; simpl.
  repeat split; try reflexivity; try exact Ht.
  unfold getIndexDefinitions, mbind, M_bind, getDB; simpl. rewrite Ht. reflexivity.
Qed.

Lemma C2_clearCache_keeps_index_table_witness :
  db_cidx staleDB = Some staleTable /\
  getIndexDefinitions (clearCache staleDB) = (Ret (Some staleTable), clearCache staleDB).
Proof.
  split; [reflexivity|].
  apply (C2_clearCache_keeps_index_table staleDB staleTable eq_refl).
Defined.

(** C3 *)
Lemma find_app {A} (p : A -> bool) (l1 l2 : list A) :
  find p (l1 ++ l2) = match find p l1 with Some x => Some x | None => find p l2 end.
Proof. induction l1 as [|x l1 IH]; simpl; [reflexivity|]. destruct (p x); auto. Qed.

Lemma fieldIndexDefinitions_lookup (fs : list TinaField) defs k :
  fieldIndexDefinitions fs defs !! k =
  match lastIndexableField fs k with
  | Some f => Some (singleFieldIndex f)
  | None => defs !! k
  end.
Proof.
  unfold fieldIndexDefinitions, lastIndexableField.
  revert defs. induction fs as [|f fs IH]; intros defs; simpl; [reflexivity|].
  rewrite IH, find_app. simpl.
  destruct (find _ (rev fs)) as [g|]; [reflexivity|].
  destruct (skipField f) eqn:Hs; simpl.
  - rewrite andb_false_r. reflexivity.
  - rewrite andb_true_r. destruct (String.eqb_spec (field_name f) k) as [<-|Hne].
    + by rewrite lookup_insert_eq.
    + by rewrite lookup_insert_ne.
Qed.

Lemma indexesIndexDefinitions_lookup fields ixs defs defs' k :
  indexesIndexDefinitions fields ixs defs = Some defs' ->
  defs' !! k =
  match find (fun ix => String.eqb (index_name ix) k) (rev ixs) with
  | Some ix => (fun ifs => {| idx_fields := ifs |}) <$> mapOpt (compositeField fields) (index_fields ix)
  | None => defs !! k
  end.
Proof.
  revert defs. induction ixs as [|ix ixs IH]; intros defs Hb; simpl in Hb.
  - by injection Hb as <-.
  - destruct (mapOpt _ _) as [ifs|] eqn:Eifs; [|discriminate].
    rewrite (IH _ Hb). cbn [rev]. rewrite find_app.
    destruct (find _ (rev ixs)) as [ix'|]; [reflexivity|]. simpl.
    destruct (String.eqb_spec (index_name ix) k) as [<-|Hne].
    + rewrite lookup_insert_eq, Eifs. reflexivity.
    + by rewrite lookup_insert_ne.
Qed.

(** Counterexample to claim C3: a rich-text field without [indexed: false]
    is not skipped; [posts] gets a single-column [body] index. *)
Lemma C3_rich_text_field_indexed_cex :
  exists defs, collectionIndexDefinitions postsCollection = Some defs /\
               defs !! "body" = Some (singleFieldIndex fBody).
Proof. eexists. split; [reflexivity|]. vm_compute. reflexivity. Qed.

(** Claim C3, as the code does it: in the table of a collection, a name
    maps to the last composite index of that name among the collection's
    [indexes], if there is one. Otherwise it maps to the single-column
    index of the last field of that name that is neither [indexed: false]
    nor of type object (rich-text fields included). Failing such a field,
    the name [__filepath__] maps to the default index with no field, and
    any other name to nothing. *)
Theorem C3_index_definitions_of_collection (c : Collection)
    (defs : gmap string IndexDefinition) (Hc : collectionIndexDefinitions c = Some defs)
    (k : string) :
  defs !! k =
  match lastCompositeIndex c k with
  | Some ix => (fun ifs => {| idx_fields := ifs |}) <$> mapOpt (compositeField (coll_fields c)) (index_fields ix)
  | None =>
      match lastIndexableField (default [] (coll_fields c)) k with
      | Some f => Some (singleFieldIndex f)
      | None => if String.eqb k DEFAULT_COLLECTION_SORT_KEY then Some {| idx_fields := [] |} else None
      end
  end.
Proof.
  unfold collectionIndexDefinitions in Hc. unfold lastCompositeIndex.
  set (defs0 := {[DEFAULT_COLLECTION_SORT_KEY := {| idx_fields := [] |}]} : gmap string IndexDefinition) in Hc.
  assert (Hd1 : forall fs0, (match fs0 with Some fs => fieldIndexDefinitions fs defs0 | None => defs0 end) !! k
            = match lastIndexableField (default [] fs0) k with
              | Some f => Some (singleFieldIndex f)
              | None => if String.eqb k DEFAULT_COLLECTION_SORT_KEY then Some {| idx_fields := [] |} else None
              end).
  { intros [fs|]; simpl.
    - rewrite fieldIndexDefinitions_lookup. destruct (lastIndexableField fs k); [reflexivity|].
      unfold defs0. destruct (String.eqb_spec k DEFAULT_COLLECTION_SORT_KEY) as [->|Hne].
      + by rewrite lookup_singleton_eq.
      + by rewrite lookup_singleton_ne.
    - unfold defs0. destruct (String.eqb_spec k DEFAULT_COLLECTION_SORT_KEY) as [->|Hne].
      + by rewrite lookup_singleton_eq.
      + by rewrite lookup_singleton_ne. }
  destruct (coll_indexes c) as [ixs|] eqn:Hix; simpl.
  - rewrite (indexesIndexDefinitions_lookup _ _ _ _ _ Hc).
    destruct (find _ (rev ixs)); [reflexivity|]. apply Hd1.
  - injection Hc as <-. apply Hd1.
Qed.

Lemma C3_index_definitions_of_collection_witness :
  exists defs, collectionIndexDefinitions postsCollection = Some defs /\
  defs !! "body" = Some (singleFieldIndex fBody).
Proof.
  eexists. split; [reflexivity|].
  refine (eq_trans (C3_index_definitions_of_collection postsCollection _ eq_refl "body") _).
  reflexivity.
Defined.

(** C4 *)
Module IndexStatusFacts.
Import IndexStatus.
Local Open Scope list_scope.

(** A status callback that rejects the promise of the [complete] event. *)
Definition rejectOnComplete (s : Status) : option Exn :=
  match s with Complete => Some (EError "callback failed") | _ => None end.

(** Counterexample to claim C4: the body succeeds, the callback rejects on
    [complete]; the rejection is caught by the wrapper's own [catch], so
    the run emits [complete] and then [failed]. *)
Lemma C4_complete_then_failed_cex :
  longRunningOp rejectOnComplete {| body_work := [1]; body_error := None |}
                {| body_work := [2]; body_error := None |} []
  = (Raise (EError "callback failed"),
     [EvStatus Inprogress; EvWork 1; EvStatus Complete;
      EvStatus (Failed (EError "callback failed"))]).
Proof. reflexivity. Qed.

(** Claim C4, as the code does it, for any status callback: a
    long-running operation first emits [inprogress]; when the callback
    rejects on it, the operation throws that rejection before any work.
    Otherwise the body runs. When it throws [e], the wrapper emits one
    [failed e], skips the flush and throws [e] (or the callback's rejection
    of that event). When it succeeds, the wrapper emits [complete]; if the
    callback resolves on it, the final flush runs and no [failed] is
    emitted; if it rejects with [r], the wrapper's own [catch] emits
    [failed r] right after [complete], skips the flush and throws [r] (or
    the callback's rejection of that event). *)
Theorem C4_status_events (cb : Status -> option Exn) (fn flush : Body) (tr : list Event) :
  longRunningOp cb fn flush tr =
  match cb Inprogress with
  | Some r => (Raise r, tr ++ [EvStatus Inprogress])
  | None =>
      match body_error fn with
      | Some e => (Raise (default e (cb (Failed e))),
                   tr ++ [EvStatus Inprogress] ++ map EvWork (body_work fn) ++ [EvStatus (Failed e)])
      | None =>
          match cb Complete with
          | None => (match body_error flush with None => Ret tt | Some e => Raise e end,
                     tr ++ [EvStatus Inprogress] ++ map EvWork (body_work fn)
                        ++ [EvStatus Complete] ++ map EvWork (body_work flush))
          | Some r => (Raise (default r (cb (Failed r))),
                       tr ++ [EvStatus Inprogress] ++ map EvWork (body_work fn)
                          ++ [EvStatus Complete; EvStatus (Failed r)])
          end
      end
  end.
Proof.
  unfold longRunningOp, indexStatusCallbackWrapper, emit, runBody, catchW, raiseW,
    mbind, W_bind; simpl.
  destruct (cb Inprogress) as [r0|]; [reflexivity|].
  destruct (body_error fn) as [e|]; simpl.
  - destruct (cb (Failed e)); simpl; by rewrite <- !app_assoc.
  - destruct (cb Complete) as [r|]; simpl.
    + destruct (cb (Failed r)); simpl; by rewrite <- !app_assoc.
    + by rewrite <- !app_assoc.
Qed.

Lemma C4_status_events_witness :
  longRunningOp (fun _ => None) {| body_work := [1; 2]; body_error := Some ETypeError |}
                {| body_work := [3]; body_error := None |} []
  = (Raise ETypeError, [EvStatus Inprogress; EvWork 1; EvWork 2; EvStatus (Failed ETypeError)]).
Proof. exact (C4_status_events (fun _ => None) _ _ []). Defined.

End IndexStatusFacts.

(** C5 *)
Module QueryFacts.
Import Query.
Local Open Scope list_scope.

(** Counterexample to claim C5: [first: 0] is supplied, but [if (first)]
    treats it as absent and the limit is the default 50, not 0. *)
Lemma C5_first_zero_cex : computeLimit (Some 0%Z) None <> 0%Z.
Proof. discriminate. Qed.

Lemma scanEdges_unlimited reverse matchKey itemFilter keys edges :
  scanEdges (-1) reverse matchKey itemFilter keys edges
  = (edges ++ matchingEdges matchKey itemFilter keys, false, false).
Proof.
  revert edges. induction keys as [|k keys IH]; intros edges; simpl.
  - by rewrite app_nil_r.
  - unfold matchingEdges; simpl. destruct (matchKey k) as [fp|]; [|apply IH].
    destruct (itemFilter k); simpl; [|apply IH].
    rewrite IH, <- app_assoc. reflexivity.
Qed.

(** Claim C5, as the code does it: the limit is [first] when [first] is
    truthy (supplied and non-zero), else [last] when [last] is truthy, else
    50; a limit of -1 sets no cap: the scan keeps every matching edge and
    sets neither [hasPreviousPage] nor [hasNextPage]. *)
Theorem C5_limit (first last : option Z) :
  (forall f, first = Some f -> f <> 0%Z -> computeLimit first last = f) /\
  (forall l, truthyZ first = false -> last = Some l -> l <> 0%Z -> computeLimit first last = l) /\
  (truthyZ first = false -> truthyZ last = false -> computeLimit first last = 50%Z) /\
  (computeLimit first last = (-1)%Z ->
   forall reverse matchKey itemFilter keys,
     scanEdges (computeLimit first last) reverse matchKey itemFilter keys []
     = (matchingEdges matchKey itemFilter keys, false, false)).
Proof.
  split; [|split; [|split]].
  - intros f -> Hf. unfold computeLimit, truthyZ. by rewrite (proj2 (Z.eqb_neq f 0) Hf).
  - intros l Hfirst -> Hl. unfold computeLimit.
    destruct first as [f|]; simpl in *; rewrite ?Hfirst, (proj2 (Z.eqb_neq l 0) Hl); reflexivity.
  - intros Hf Hl. unfold computeLimit.
    destruct first as [f|]; simpl in *; rewrite ?Hf;
      destruct last as [l|]; simpl in *; rewrite ?Hl; reflexivity.
  - intros Hm1 reverse matchKey itemFilter keys. rewrite Hm1, scanEdges_unlimited. reflexivity.
Qed.

Lemma C5_limit_witness :
  computeLimit (Some 3%Z) (Some 7%Z) = 3%Z /\
  computeLimit (Some 0%Z) (Some 7%Z) = 7%Z /\
  computeLimit None (Some 0%Z) = 50%Z /\
  scanEdges (computeLimit (Some (-1)%Z) None) false (fun k => Some k) (fun _ => true) ["a"; "b"] []
  = ([("a", "a"); ("b", "b")], false, false).
Proof.
  split; [|split; [|split]].
  - apply (proj1 (C5_limit (Some 3%Z) (Some 7%Z)) 3%Z eq_refl). discriminate.
  - apply (proj1 (proj2 (C5_limit (Some 0%Z) (Some 7%Z))) 7%Z eq_refl eq_refl). discriminate.
  - apply (proj1 (proj2 (proj2 (C5_limit None (Some 0%Z)))) eq_refl eq_refl).
  - apply (proj2 (proj2 (proj2 (C5_limit (Some (-1)%Z) None))) eq_refl).
Defined.

(** C6 *)
(** Counterexample to claim C6: with both cursors, the [before] cursor is
    ignored ([else if]); no [lt] bound is set. *)
Lemma C6_before_ignored_with_after_cex :
  q_lt (queryBounds (Some (btoa "k1")) (Some (btoa "k2")) None None) <> Some (atob (btoa "k2")).
Proof. vm_compute. discriminate. Qed.

(** Claim C6, as the code does it: a truthy [after] sets [gt] to its
    decoding and no [lt], whatever [before] is; otherwise a truthy
    [before] sets [lt] to its decoding; [gte] (left prefix, or empty)
    is set exactly when [gt] is unset or decodes to the empty string,
    [lte] (right prefix then the max byte, or the max byte) exactly when
    [lt] is. *)
Theorem C6_bounds (after before : option string) (last : option Z)
    (fs : option FilterSuffixes) :
  let q := queryBounds after before last fs in
  (forall a, after = Some a -> a <> "" ->
     q_gt q = Some (atob a) /\ q_lt q = None /\ q_lte q = Some (lteFallback fs)) /\
  (truthyStr after = false -> q_gt q = None /\ q_gte q = Some (gteFallback fs) /\
     forall b, before = Some b -> b <> "" -> q_lt q = Some (atob b)) /\
  (truthyStr (q_gt q) = false -> q_gte q = Some (gteFallback fs)) /\
  (truthyStr (q_lt q) = false -> q_lte q = Some (lteFallback fs)).
Proof.
  unfold queryBounds, gteFallback, lteFallback; simpl.
  split; [|split; [|split]].
  - intros a -> Ha. simpl. rewrite (proj2 (String.eqb_neq a "") Ha). simpl. auto.
  - intros Ha. rewrite Ha. simpl. split; [reflexivity|]. split; [reflexivity|].
    intros b -> Hb. simpl. rewrite (proj2 (String.eqb_neq b "") Hb). reflexivity.
  - intros H. rewrite H. reflexivity.
  - intros H. rewrite H. reflexivity.
Qed.

Lemma C6_bounds_witness :
  q_gt (queryBounds (Some "azE=") (Some "azI=") None None) = Some "k1" /\
  q_lt (queryBounds (Some "azE=") (Some "azI=") None None) = None.
Proof.
  destruct (proj1 (C6_bounds (Some "azE=") (Some "azI=") None None) "azE=" eq_refl
              ltac:(discriminate)) as [Hgt [Hlt _]].
  split; [exact Hgt | exact Hlt].
Defined.

(** C8 *)
(** Counterexample to claim C8: a hydrator that throws a value that is not
    an [Error] on an ordinary document is re-thrown unadorned. *)
Lemma C8_non_error_rethrown_cex :
  hydrateEdges (Node := nat) "posts" (fun _ => HThrow (ThrownValue (VStr "boom")))
    [("k", "posts/a.md")]
  <> inr (TinaQueryError (ThrownValue (VStr "boom")) "posts/a.md" "posts").
Proof. vm_compute. discriminate. Qed.

(** Claim C8, as the code does it: hydration stops at the first edge whose
    hydrator call throws [t]; it throws a [TinaQueryError] carrying [t],
    the edge's path and the collection when [t] is an [Error] and the path
    does not contain [.tina/__generated__/_graphql.json], and re-throws
    [t] unadorned otherwise. *)
Theorem C8_hydration_errors {Node} (collection : string)
    (hydrator : string -> HydrateResult Node) (before : list (string * string))
    (cursor path : string) (after : list (string * string)) (t : Thrown)
    (Hbefore : forall c p, (c, p) ∈ before -> exists n, hydrator p = HOk n)
    (Hfail : hydrator path = HThrow t) :
  hydrateEdges collection hydrator (before ++ (cursor, path) :: after) =
  inr (if isErrorInstance t && negb (includes path ".tina/__generated__/_graphql.json")
       then TinaQueryError t path collection
       else Rethrown t).
Proof.
  induction before as [|[c p] before IH]; simpl.
  - rewrite Hfail. destruct (_ && _); reflexivity.
  - destruct (Hbefore c p ltac:(constructor)) as [n Hn]. rewrite Hn.
    rewrite IH; [reflexivity|]. intros c' p' Hin. apply (Hbefore c' p'). by constructor.
Qed.

Lemma C8_hydration_errors_witness :
  hydrateEdges (Node := nat) "posts"
    (fun p => if String.eqb p "posts/b.md" then HThrow (ThrownError "bad") else HOk 1)
    [("k1", "posts/a.md"); ("k2", "posts/b.md")]
  = inr (TinaQueryError (ThrownError "bad") "posts/b.md" "posts").
Proof.
  apply (C8_hydration_errors "posts" _ [("k1", "posts/a.md")] "k2" "posts/b.md" []
           (ThrownError "bad")).
  - intros c p Hin. apply list_elem_of_singleton in Hin. injection Hin as -> ->.
    exists 1. reflexivity.
  - reflexivity.
Defined.

End QueryFacts.

(** ** Frame and step lemmas of the store *)

Lemma bind_Ret_inv {A B} (m : M A) (k : A -> M B) db b db' :
  (m ≫= k) db = (Ret b, db') -> exists a dbm, m db = (Ret a, dbm) /\ k a dbm = (Ret b, db').
Proof.
  unfold mbind, M_bind. destruct (m db) as [[a|e] dbm]; intros H; [eauto|discriminate].
Qed.

Lemma catchM_Ret_inv {A} (m : M A) (h : Exn -> M A) db a db' :
  (forall e dbx, exists e', h e dbx = (Raise e', dbx)) ->
  catchM m h db = (Ret a, db') -> m db = (Ret a, db').
Proof.
  intros Hh. unfold catchM. destruct (m db) as [[a'|e] dbm]; [auto|].
  destruct (Hh e dbm) as [e' ->]. discriminate.
Qed.

Ltac inv_bind H :=
  apply bind_Ret_inv in H; destruct H as (?a & ?dbm & ?Hm & H).

(** A relation every step of a computation keeps. *)
Definition Preserves (R : DB -> DB -> Prop) {A} (m : M A) : Prop :=
  forall db r db', m db = (r, db') -> R db db'.

Lemma preserves_bind (R : DB -> DB -> Prop) `{!Reflexive R, !Transitive R} {A B}
    (m : M A) (k : A -> M B) :
  Preserves R m -> (forall a, Preserves R (k a)) -> Preserves R (m ≫= k).
Proof.
  intros Hm Hk db r db'. unfold mbind, M_bind.
  destruct (m db) as [[a|e] dbm] eqn:E; intros H.
  - transitivity dbm; [exact (Hm _ _ _ E) | exact (Hk a _ _ _ H)].
  - injection H as _ <-. exact (Hm _ _ _ E).
Qed.

Lemma preserves_ret (R : DB -> DB -> Prop) `{!Reflexive R} {A} (a : A) : Preserves R (mret a).
Proof. intros db r db' H. injection H as _ <-. reflexivity. Qed.

Lemma preserves_raise (R : DB -> DB -> Prop) `{!Reflexive R} {A} (e : Exn) :
  Preserves R (raise (A := A) e).
Proof. intros db r db' H. injection H as _ <-. reflexivity. Qed.

Lemma preserves_getDB (R : DB -> DB -> Prop) `{!Reflexive R} : Preserves R getDB.
Proof. intros db r db' H. injection H as _ <-. reflexivity. Qed.

(** Same store, bridge and index-definition cache. *)
Definition sameData (db db' : DB) : Prop :=
  db_level db' = db_level db /\ db_bridge db' = db_bridge db /\ db_cidx db' = db_cidx db.

Global Instance sameData_refl : Reflexive sameData.
Proof. intros db. repeat split. Qed.
Global Instance sameData_trans : Transitive sameData.
Proof. intros x y z (H1 & H2 & H3) (H4 & H5 & H6). repeat split; congruence. Qed.

(** Same store and bridge. *)
Definition sameFiles (db db' : DB) : Prop :=
  db_level db' = db_level db /\ db_bridge db' = db_bridge db.

Global Instance sameFiles_refl : Reflexive sameFiles.
Proof. intros db. repeat split. Qed.
Global Instance sameFiles_trans : Transitive sameFiles.
Proof. intros x y z (H1 & H2) (H4 & H5). split; congruence. Qed.

Lemma sameData_sameFiles db db' : sameData db db' -> sameFiles db db'.
Proof. intros (H1 & H2 & _). split; assumption. Qed.

Ltac pbind := match goal with |- Preserves ?R _ => apply (preserves_bind R) end.
Ltac pret := match goal with
             | |- Preserves ?R _ =>
                 first [apply (preserves_ret R) | apply (preserves_raise R) | apply (preserves_getDB R)]
             end.

Lemma levelGet_preserves (R : DB -> DB -> Prop) `{!Reflexive R} sl key : Preserves R (levelGet sl key).
Proof.
  intros db r db'. unfold levelGet, mbind, M_bind, getDB; simpl.
  destruct (db_level db !! (sl, key)); intros H; injection H as _ <-; reflexivity.
Qed.

Lemma getSchema_sameData : Preserves sameData getSchema.
Proof.
  unfold getSchema. pbind; [pret|].
  intros db0. destruct (db_tinaSchema db0); [pret|].
  pbind.
  - unfold getTinaSchema. pbind; [apply levelGet_preserves; apply _|].
    intros v. destruct v; pret.
  - intros s. pbind; [|intros; pret].
    intros db r db' H. injection H as _ <-. repeat split.
Qed.

Lemma buildIndexDefinitions_sameFiles cs : Preserves sameFiles (buildIndexDefinitions cs).
Proof.
  induction cs as [|c cs IH]; simpl; [pret|].
  destruct (collectionIndexDefinitions c); [|pret].
  pbind; [|intros; exact IH].
  intros db r db' H. injection H as _ <-. repeat split.
Qed.

Lemma getIndexDefinitions_sameFiles : Preserves sameFiles getIndexDefinitions.
Proof.
  unfold getIndexDefinitions. pbind; [pret|].
  intros db0. destruct (db_cidx db0); [pret|].
  pbind.
  - intros db r db' H. apply sameData_sameFiles. exact (getSchema_sameData _ _ _ H).
  - intros s. pbind; [apply buildIndexDefinitions_sameFiles|].
    intros _. pbind; [pret|intros; pret].
Qed.

(** [getIndexDefinitions] returns the cache it leaves behind. *)
Lemma getIndexDefinitions_Ret db r db' :
  getIndexDefinitions db = (Ret r, db') -> r = db_cidx db'.
Proof.
  unfold getIndexDefinitions. intros H. inv_bind H. injection Hm as <- <-.
  destruct (db_cidx db) eqn:Ec.
  - injection H as <- <-. symmetry. exact Ec.
  - inv_bind H. inv_bind H. inv_bind H. injection Hm1 as <- <-. injection H as <- <-. reflexivity.
Qed.

Lemma getIndexDefinitions_memo db t :
  db_cidx db = Some t -> getIndexDefinitions db = (Ret (Some t), db).
Proof. intros Ht. unfold getIndexDefinitions, mbind, M_bind, getDB; simpl. by rewrite Ht. Qed.

Lemma stringifyFile_sameData p d : Preserves sameData (stringifyFile p d).
Proof.
  unfold stringifyFile. destruct (isSystemFile p); [pret|].
  pbind; [apply getSchema_sameData|].
  intros s. destruct (getCollectionByFullPath s p) as [c|]; [|pret].
  pbind.
  - destruct (getTemplatesForCollectable c); [pret|].
    destruct (hasOwnProperty d "_template"); pret.
  - intros [t|]; pret.
Qed.

Lemma fetchExisting_Ret key db e db' :
  fetchExisting key db = (Ret e, db') -> db' = db /\ e = db_level db !! (rootSublevel, key).
Proof.
  unfold fetchExisting, catchM, levelGet, mbind, M_bind, getDB; simpl.
  destruct (db_level db !! (rootSublevel, key)); intros H; injection H as <- <-; auto.
Qed.

Lemma applyBatch_app st (l1 l2 : list BatchOp) :
  applyBatch st (l1 ++ l2) = applyBatch (applyBatch st l1) l2.
Proof. unfold applyBatch. revert st. induction l1; intros st; simpl; auto. Qed.

Definition opLoc (op : BatchOp) : list string * string :=
  match op with BPut sl k _ => (sl, k) | BDel sl k => (sl, k) end.

Lemma applyOp_other st op loc : opLoc op <> loc -> applyOp st op !! loc = st !! loc.
Proof.
  destruct op; simpl; intros Hne; [by rewrite lookup_insert_ne | by rewrite lookup_delete_ne].
Qed.

Definition opResult (o : OpType) : option LVal :=
  match o with OpPut => Some LMarker | OpDel => None end.

Lemma indexOps_list_lookup st fp c P o (l : list (string * IndexDefinition)) sort key :
  NoDup l.*1 ->
  applyBatch st (omap (makeIndexOp fp c P o) l) !! (indexSublevel c sort, key) =
  match (list_to_map l : gmap string IndexDefinition) !! sort with
  | Some def => if bool_decide (makeKeyForField def P fp = Some key) then opResult o
                else st !! (indexSublevel c sort, key)
  | None => st !! (indexSublevel c sort, key)
  end.
Proof.
  revert st. induction l as [|[s def] l IH]; intros st Hnd; simpl; [reflexivity|].
  apply NoDup_cons in Hnd as [Hs Hnd].
  assert (Hstep : forall st', st' !! (indexSublevel c sort, key) = st !! (indexSublevel c sort, key) ->
            applyBatch st' (omap (makeIndexOp fp c P o) l) !! (indexSublevel c sort, key) =
            match (list_to_map l : gmap string IndexDefinition) !! sort with
            | Some def0 => if bool_decide (makeKeyForField def0 P fp = Some key) then opResult o
                           else st !! (indexSublevel c sort, key)
            | None => st !! (indexSublevel c sort, key)
            end).
  { intros st' Hst'. rewrite IH by exact Hnd. rewrite Hst'. reflexivity. }
  destruct (String.eqb_spec s sort) as [<-|Hne].
  - rewrite lookup_insert_eq.
    assert (Hl : (list_to_map l : gmap string IndexDefinition) !! s = None)
      by (apply not_elem_of_list_to_map_1; exact Hs).
    destruct (makeKeyForField def P fp) as [k|] eqn:Ek.
    + unfold applyBatch; simpl; fold (applyBatch (applyOp st (match o with
          | OpPut => BPut (indexSublevel c s) k LMarker
          | OpDel => BDel (indexSublevel c s) k end)) (omap (makeIndexOp fp c P o) l)).
      rewrite IH by exact Hnd. rewrite Hl.
      destruct (String.eqb_spec k key) as [<-|Hk].
      * rewrite bool_decide_true by reflexivity.
        destruct o; simpl; [apply lookup_insert_eq|apply lookup_delete_eq].
      * rewrite bool_decide_false by congruence.
        apply applyOp_other. destruct o; simpl; congruence.
    + rewrite bool_decide_false by discriminate.
      rewrite IH by exact Hnd. rewrite Hl. reflexivity.
  - rewrite lookup_insert_ne by congruence.
    destruct (makeKeyForField def P fp) as [k|] eqn:Ek.
    + unfold applyBatch; simpl; fold (applyBatch (applyOp st (match o with
          | OpPut => BPut (indexSublevel c s) k LMarker
          | OpDel => BDel (indexSublevel c s) k end)) (omap (makeIndexOp fp c P o) l)).
      apply Hstep. apply applyOp_other. unfold indexSublevel; destruct o; simpl; congruence.
    + apply Hstep. reflexivity.
Qed.

Lemma indexOps_lookup st fp c defs P o sort key :
  applyBatch st (indexOps fp c defs P o) !! (indexSublevel c sort, key) =
  match defs !! sort with
  | Some def => if bool_decide (makeKeyForField def P fp = Some key) then opResult o
                else st !! (indexSublevel c sort, key)
  | None => st !! (indexSublevel c sort, key)
  end.
Proof.
  unfold indexOps.
  rewrite indexOps_list_lookup by apply NoDup_fst_map_to_list.
  by rewrite list_to_map_to_list.
Qed.

Lemma truthyStr_nonempty c : c <> "" -> truthyStr (Some c) = true.
Proof. intros Hc. simpl. destruct (String.eqb_spec c ""); [contradiction | reflexivity]. Qed.

(** For a non-empty collection name, [makeIndexOpsForDocument] returns
    exactly when the collection has index definitions. *)
Lemma makeIndexOps_named fp c cid P o ops :
  c <> "" -> makeIndexOpsForDocument fp (Some c) cid P o = Some ops ->
  exists defs, cid = Some defs /\ ops = indexOps fp c defs P o.
Proof.
  intros Hc. unfold makeIndexOpsForDocument. rewrite truthyStr_nonempty by exact Hc.
  destruct cid as [defs|]; [|discriminate]. intros H. injection H as <-. eauto.
Qed.

Lemma orTypeError_Ret {A} (o : option A) db a db' :
  orTypeError o db = (Ret a, db') -> o = Some a /\ db' = db.
Proof. destruct o; intros H; [injection H as -> ->; auto | discriminate]. Qed.

Lemma orTypeError_Raise {A} (o : option A) db e db' :
  orTypeError o db = (Raise e, db') -> o = None /\ e = ETypeError /\ db' = db.
Proof. destruct o; intros H; [discriminate | injection H as <- <-; auto]. Qed.

Lemma bridgeIO_Ret path f db u db' :
  bridgeIO path f db = (Ret u, db') ->
  db_bridgeFaults db !! path = None /\ db' = setBridge (f (db_bridge db)) db.
Proof.
  unfold bridgeIO, mbind, M_bind, getDB; simpl.
  destruct (db_bridgeFaults db !! path); intros H; [discriminate|]. injection H as _ <-. auto.
Qed.

Lemma bridgeIO_Raise path f db e db' :
  bridgeIO path f db = (Raise e, db') -> db_bridgeFaults db !! path = Some e /\ db' = db.
Proof.
  unfold bridgeIO, mbind, M_bind, getDB; simpl.
  destruct (db_bridgeFaults db !! path); intros H; [|discriminate]. injection H as -> <-. auto.
Qed.

Lemma bridgeIO_ok path f db :
  db_bridgeFaults db !! path = None -> bridgeIO path f db = (Ret tt, setBridge (f (db_bridge db)) db).
Proof. intros Hf. unfold bridgeIO, mbind, M_bind, getDB; simpl. by rewrite Hf. Qed.

Lemma getSchema_Ret_cache db s db' :
  getSchema db = (Ret s, db') -> db_tinaSchema db' = Some s.
Proof.
  unfold getSchema, getTinaSchema, levelGet, mbind, M_bind, mret, M_ret, raise, getDB, modifyDB; simpl.
  destruct (db_tinaSchema db) as [s0|] eqn:E.
  - intros H. injection H as -> <-. exact E.
  - destruct (db_level db !! (rootSublevel, schemaPath)) as [[]|]; simpl;
      intros H; try discriminate H; injection H as -> <-; reflexivity.
Qed.

(** The payload [stringifyFile] returns is the data with the body field
    of the chosen template moved under [$_body] for a markdown
    collection; the schema it read stays cached. *)
Lemma stringifyFile_Ret_chosen p d db f P db' :
  stringifyFile p d db = (Ret (f, P), db') ->
  exists s col t, db_tinaSchema db' = Some s /\ getCollectionByFullPath s p = Some col /\
    templateChosen col d t /\ P = bodyPayload (coll_format col) (bodyField t) d.
Proof.
  unfold stringifyFile. destruct (isSystemFile p); [discriminate|].
  intros H. apply bind_Ret_inv in H as (s & db1 & H1 & H).
  pose proof (getSchema_Ret_cache _ _ _ H1) as Hs1.
  destruct (getCollectionByFullPath s p) as [col|] eqn:Hcol; [|discriminate].
  apply bind_Ret_inv in H as (ot & db2 & H2 & H). destruct ot as [t|]; [|discriminate].
  injection H as _ <- <-.
  exists s, col, t. unfold templateChosen.
  destruct (getTemplatesForCollectable col) as [t0|ts].
  - injection H2 as <- <-. auto.
  - destruct (hasOwnProperty d "_template") eqn:Eh; [|discriminate].
    injection H2 as <- <-. auto.
Qed.

(** A successful [put]: its steps, in order. *)
Lemma put_Ret_inv p d coll db b db' :
  put p d coll db = (Ret b, db') ->
  isSystemFile p = false /\
  exists cid dbA f P dbB putOps delOps,
    collectionIndexDefinitionsFor coll db = (Ret cid, dbA) /\
    stringifyFile p d dbA = (Ret (f, P), dbB) /\
    db_bridgeFaults dbB !! normalizePath p = None /\
    makeIndexOpsForDocument (normalizePath p) coll cid P OpPut = Some putOps /\
    match db_level dbB !! (rootSublevel, normalizePath p) with
    | Some item => makeIndexOpsForDocument (normalizePath p) coll cid (lvalPayload item) OpDel = Some delOps
    | None => delOps = []
    end /\
    db' = setLevel (applyBatch (db_level dbB) (delOps ++ putOps ++ [BPut rootSublevel (normalizePath p) (LDoc P)]))
            (setBridge (<[normalizePath p := f]> (db_bridge dbB)) dbB).
Proof.
  intros H. unfold put in H.
  apply catchM_Ret_inv in H; [|intros e dbx; eexists; reflexivity].
  apply bind_Ret_inv in H as (u & dbm & Hm & H). injection H as _ <-.
  destruct (isSystemFile p); [discriminate|]. split; [reflexivity|].
  apply bind_Ret_inv in Hm as (cid & dbA & HA & Hm).
  apply bind_Ret_inv in Hm as ([f P] & dbB & HB & Hm).
  apply bind_Ret_inv in Hm as (u1 & dbC & HC & Hm).
  unfold bridgePut in HC. apply bridgeIO_Ret in HC as [Hnf ->].
  apply bind_Ret_inv in Hm as (putOps & dbD & HD & Hm).
  apply orTypeError_Ret in HD as [Hput ->].
  apply bind_Ret_inv in Hm as (ex & dbE & HE & Hm).
  apply fetchExisting_Ret in HE as [-> ->].
  apply bind_Ret_inv in Hm as (delOps & dbF & HF & Hm).
  unfold levelBatch, modifyDB in Hm. injection Hm as _ <-.
  exists cid, dbA, f, P, dbB, putOps, delOps.
  split; [exact HA|]. split; [exact HB|]. split; [exact Hnf|]. split; [exact Hput|].
  cbn [setBridge db_level] in HF |- *.
  destruct (db_level dbB !! (rootSublevel, normalizePath p)) as [item|].
  - apply orTypeError_Ret in HF as [Hdel ->]. split; [exact Hdel | reflexivity].
  - injection HF as <- <-. split; reflexivity.
Qed.

Lemma put_Ret p d c db b db' :
  c <> "" -> put p d (Some c) db = (Ret b, db') ->
  exists r dbA defs P,
    getIndexDefinitions db = (Ret r, dbA) /\ db_cidx db' = r /\ (r ≫= fun m => m !! c) = Some defs /\
    (exists s col t, db_tinaSchema db' = Some s /\ getCollectionByFullPath s p = Some col /\
       templateChosen col d t /\ P = bodyPayload (coll_format col) (bodyField t) d) /\
    db_level db' = applyBatch (db_level db)
      ((match db_level db !! (rootSublevel, normalizePath p) with
        | Some item => indexOps (normalizePath p) c defs (lvalPayload item) OpDel
        | None => [] end)
       ++ indexOps (normalizePath p) c defs P OpPut
       ++ [BPut rootSublevel (normalizePath p) (LDoc P)]).
Proof.
  intros Hc H.
  destruct (put_Ret_inv _ _ _ _ _ _ H)
    as (_ & cid & dbA & f & P & dbB & putOps & delOps & HA & HB & _ & Hput & Hdel & ->).
  unfold collectionIndexDefinitionsFor in HA. rewrite truthyStr_nonempty in HA by exact Hc.
  apply bind_Ret_inv in HA as (r & dbA' & Hg & HA). injection HA as <- ->.
  pose proof (getIndexDefinitions_sameFiles _ _ _ Hg) as [HL0 _].
  pose proof (getIndexDefinitions_Ret _ _ _ Hg) as Hr.
  pose proof (stringifyFile_sameData _ _ _ _ _ HB) as (HL1 & _ & HC1).
  destruct (stringifyFile_Ret_chosen _ _ _ _ _ _ HB) as (s & col & t & Hs & Hcol & Ht & HP).
  destruct (makeIndexOps_named _ _ _ _ _ _ Hc Hput) as (defs & Hdefs & ->).
  exists r, dbA, defs, P. split; [exact Hg|]. split; [cbn; congruence|]. split; [exact Hdefs|].
  split; [exists s, col, t; auto|].
  cbn [setLevel db_level]. rewrite HL1, HL0 in *. f_equal.
  destruct (db_level db !! (rootSublevel, normalizePath p)) as [item|].
  - destruct (makeIndexOps_named _ _ _ _ _ _ Hc Hdel) as (defs' & Hdefs' & ->).
    rewrite Hdefs in Hdefs'. injection Hdefs' as <-. reflexivity.
  - subst delOps. reflexivity.
Qed.

Lemma put_index_step p d c db b db' T defs sort def :
  c <> "" -> put p d (Some c) db = (Ret b, db') ->
  fst (getIndexDefinitions db) = Ret (Some T) -> T !! c = Some defs -> defs !! sort = Some def ->
  exists P, (exists s col t, db_tinaSchema db' = Some s /\ getCollectionByFullPath s p = Some col /\
               templateChosen col d t /\ P = bodyPayload (coll_format col) (bodyField t) d) /\
    db_cidx db' = Some T /\
    db_level db' !! (rootSublevel, normalizePath p) = Some (LDoc P) /\
    forall key,
      (indexAgrees (db_level db) c sort def (normalizePath p) key ->
       db_level db' !! (indexSublevel c sort, key) =
       if bool_decide (makeKeyForField def P (normalizePath p) = Some key) then Some LMarker else None) /\
      (makeKeyForField def P (normalizePath p) = Some key ->
       db_level db' !! (indexSublevel c sort, key) = Some LMarker).
Proof.
  intros Hc H HT Hdefs Hdef.
  destruct (put_Ret _ _ _ _ _ _ Hc H) as (r & dbA & defs' & P & Hg & Hr & Hdefs' & HP & HL).
  rewrite Hg in HT. simpl in HT. injection HT as ->.
  change (Some T ≫= fun m => m !! c) with (T !! c) in Hdefs'. rewrite Hdefs in Hdefs'.
  injection Hdefs' as <-.
  exists P. split; [exact HP|]. split; [exact Hr|].
  rewrite HL, !applyBatch_app. split.
  { simpl. apply lookup_insert_eq. }
  intros key.
  assert (Hroot : forall st, applyBatch st [BPut rootSublevel (normalizePath p) (LDoc P)]
                               !! (indexSublevel c sort, key) = st !! (indexSublevel c sort, key)).
  { intros st. apply applyOp_other. discriminate. }
  rewrite Hroot, indexOps_lookup, Hdef.
  split.
  - intros Hagree. case_bool_decide; [reflexivity|].
    destruct (db_level db !! (rootSublevel, normalizePath p)) as [item|] eqn:Ei.
    + rewrite indexOps_lookup, Hdef. simpl. case_bool_decide; [reflexivity|].
      destruct (db_level db !! (indexSublevel c sort, key)) eqn:Ek; [|reflexivity].
      destruct Hagree as (v & Hv & Hkv); [eauto|]. rewrite Ei in Hv. injection Hv as <-.
      contradiction.
    + simpl. destruct (db_level db !! (indexSublevel c sort, key)) eqn:Ek; [|reflexivity].
      destruct Hagree as (v & Hv & Hkv); [eauto|]. rewrite Ei in Hv. discriminate.
  - intros Hk. rewrite bool_decide_true by exact Hk. reflexivity.
Qed.

Lemma string_app_assoc (s1 s2 s3 : string) : (s1 +:+ s2) +:+ s3 = s1 +:+ (s2 +:+ s3).
Proof. induction s1 as [|ch s1 IH]; [reflexivity|]. exact (f_equal (String ch) IH). Qed.

Lemma makeKeyForField_trailing def data fp k :
  makeKeyForField def data fp = Some k -> trailingPath fp k.
Proof.
  unfold makeKeyForField. destruct (mapOpt _ _) as [parts|]; [|discriminate].
  intros H. injection H as <-. induction parts as [|s parts IH]; cbn [foldr]; [by left|].
  right. destruct IH as [-> | [pre ->]].
  - by exists s.
  - exists (s +:+ INDEX_KEY_FIELD_SEPARATOR +:+ pre). by rewrite !string_app_assoc.
Qed.

(** Claim C1 (counterexample): in the markdown collection [posts], whose
    rich-text body field gets an index, two puts of [posts/a.md] leave no
    entry at all in the [body] index: the stored payload carries the body
    under [$_body], so the index finds no [body] value to key by. *)
Lemma C1_body_index_without_entry_cex :
  exists db2,
    fst (getIndexDefinitions (freshDB [postsCollection])) = Ret (Some postsTable) /\
    is_Some (postsDefs !! "body") /\
    (put "posts/a.md" c1Payload1 (Some "posts") ≫= fun _ =>
       put "posts/a.md" c1Payload2 (Some "posts")) (freshDB [postsCollection]) = (Ret true, db2) /\
    forall key, db_level db2 !! (indexSublevel "posts" "body", key) = None.
Proof.
  eexists. split; [vm_compute; reflexivity|]. split; [vm_compute; eexists; reflexivity|].
  split; [vm_compute; reflexivity|].
  intros key.
  assert (Hf : filter (fun kv : (list string * string) * LVal => kv.1.1 = indexSublevel "posts" "body")
                 (db_level (snd ((put "posts/a.md" c1Payload1 (Some "posts") ≫= fun _ =>
                    put "posts/a.md" c1Payload2 (Some "posts")) (freshDB [postsCollection]))))
               = ∅) by (vm_compute; reflexivity).
  destruct (_ !! (indexSublevel "posts" "body", key)) as [v|] eqn:E; [|reflexivity].
  exfalso. assert (Hin : filter (fun kv : (list string * string) * LVal => kv.1.1 = indexSublevel "posts" "body")
    (db_level (snd ((put "posts/a.md" c1Payload1 (Some "posts") ≫= fun _ =>
                    put "posts/a.md" c1Payload2 (Some "posts")) (freshDB [postsCollection]))))
    !! (indexSublevel "posts" "body", key) = Some v).
  { apply map_lookup_filter_Some_2; [exact E | reflexivity]. }
  rewrite Hf, lookup_empty in Hin. discriminate.
Qed.

Lemma mapOpt_Some_In {A B} (f : A -> option B) (l : list A) ys x :
  mapOpt f l = Some ys -> In x l -> is_Some (f x).
Proof.
  revert ys. induction l as [|y l IH]; intros ys H Hin; [destruct Hin|].
  simpl in H. destruct (f y) as [z|] eqn:Ey; [|discriminate].
  destruct (mapOpt f l) as [zs|] eqn:El; [|discriminate].
  destruct Hin as [<-|Hin]; [rewrite Ey; eexists; reflexivity|].
  exact (IH zs eq_refl Hin).
Qed.

(** An index one of whose fields the payload lacks gives no key. *)
Lemma makeKeyForField_missing def data fp n :
  In n (map if_name (idx_fields def)) -> data !! n = None -> makeKeyForField def data fp = None.
Proof.
  intros Hin Hn. unfold makeKeyForField.
  destruct (mapOpt _ _) as [parts|] eqn:E; [|reflexivity].
  apply in_map_iff in Hin as (x & Hx & Hin).
  destruct (mapOpt_Some_In _ _ _ x E Hin) as [v Hv].
  unfold getProp in Hv. rewrite Hx, Hn in Hv. simpl in Hv. discriminate Hv.
Qed.

(** In a markdown collection, the stored payload no longer has the body
    field under its own name. *)
Lemma bodyPayload_body_gone fmt f d :
  isMarkdownFormat fmt = true -> field_name f <> "$_body" ->
  bodyPayload fmt (Some f) d !! field_name f = None.
Proof.
  intros Hmd Hn. unfold bodyPayload. rewrite Hmd.
  rewrite lookup_insert_ne by congruence. apply lookup_delete_eq.
Qed.

(** Claim C1 (amended): let the first [put] of [p] see the table [T] in
    which collection [c] has index [sort] with definition [def], and let
    every entry of that index whose trailing component is the normalized
    path come from the primary record there. After two successful puts of
    [p] into [c], with payloads [d1] then [d2], the primary record holds
    the payload [P2] stored for [d2]: [d2] itself, except that for a
    markdown collection [col] of [p] the body field of the template [t]
    chosen for [d2] is moved under [$_body]. Among the keys of the index
    that end in the path, exactly the one [makeKeyForField] derives from
    [P2] is present: one entry when every field of the index is encoded in
    [P2], none otherwise. In particular, an index over that markdown body
    field has no entry for the path. *)
Theorem C1_put_put_index_entries p d1 d2 c db b1 db1 b2 db2 T defs sort def
    (Hc : c <> "")
    (H1 : put p d1 (Some c) db = (Ret b1, db1))
    (H2 : put p d2 (Some c) db1 = (Ret b2, db2))
    (HT : fst (getIndexDefinitions db) = Ret (Some T))
    (Hdefs : T !! c = Some defs) (Hdef : defs !! sort = Some def)
    (Hcons : forall key, trailingPath (normalizePath p) key ->
             indexAgrees (db_level db) c sort def (normalizePath p) key) :
  exists s col t P2,
    db_tinaSchema db2 = Some s /\ getCollectionByFullPath s p = Some col /\
    templateChosen col d2 t /\ P2 = bodyPayload (coll_format col) (bodyField t) d2 /\
    db_level db2 !! (rootSublevel, normalizePath p) = Some (LDoc P2) /\
    (forall key, trailingPath (normalizePath p) key ->
       (is_Some (db_level db2 !! (indexSublevel c sort, key)) <->
        makeKeyForField def P2 (normalizePath p) = Some key)) /\
    (forall key, makeKeyForField def P2 (normalizePath p) = Some key ->
       trailingPath (normalizePath p) key /\
       db_level db2 !! (indexSublevel c sort, key) = Some LMarker) /\
    (forall f, isMarkdownFormat (coll_format col) = true -> bodyField t = Some f ->
       field_name f <> "$_body" -> In (field_name f) (map if_name (idx_fields def)) ->
       forall key, trailingPath (normalizePath p) key ->
       db_level db2 !! (indexSublevel c sort, key) = None).
Proof.
  destruct (put_index_step _ _ _ _ _ _ _ _ _ _ Hc H1 HT Hdefs Hdef)
    as (P1 & _ & Hc1 & Hroot1 & Hk1).
  assert (HT2 : fst (getIndexDefinitions db1) = Ret (Some T))
    by (rewrite (getIndexDefinitions_memo _ _ Hc1); reflexivity).
  destruct (put_index_step _ _ _ _ _ _ _ _ _ _ Hc H2 HT2 Hdefs Hdef)
    as (P2 & (s & col & t & Hs & Hcol & Ht & HP2) & _ & Hroot2 & Hk2).
  assert (Hiff : forall key, trailingPath (normalizePath p) key ->
            (is_Some (db_level db2 !! (indexSublevel c sort, key)) <->
             makeKeyForField def P2 (normalizePath p) = Some key)).
  { intros key Htr.
    assert (Hagree : indexAgrees (db_level db1) c sort def (normalizePath p) key).
    { intros Hsm. rewrite (proj1 (Hk1 key) (Hcons key Htr)) in Hsm.
      case_bool_decide as Hk; [exists (LDoc P1); split; [exact Hroot1 | exact Hk]|].
      destruct Hsm as [? Hsm]. discriminate. }
    rewrite (proj1 (Hk2 key) Hagree). case_bool_decide as Hk; split; intros Hsm;
      first [exact Hk | eexists; reflexivity | destruct Hsm; discriminate | contradiction]. }
  exists s, col, t, P2.
  split; [exact Hs|]. split; [exact Hcol|]. split; [exact Ht|]. split; [exact HP2|].
  split; [exact Hroot2|]. split; [exact Hiff|]. split.
  - intros key Hk. split; [exact (makeKeyForField_trailing _ _ _ _ Hk) | exact (proj2 (Hk2 key) Hk)].
  - intros f Hmd Hbf Hn Hin key Htr.
    destruct (db_level db2 !! (indexSublevel c sort, key)) eqn:E; [|reflexivity].
    exfalso. assert (Hkey := proj1 (Hiff key Htr) (mk_is_Some _ _ E)).
    rewrite (makeKeyForField_missing def P2 (normalizePath p) (field_name f) Hin) in Hkey;
      [discriminate|].
    rewrite HP2, Hbf. exact (bodyPayload_body_gone _ _ _ Hmd Hn).
Qed.

Lemma C1_put_put_index_entries_witness :
  let db0 := freshDB [postsCollection] in
  let db1 := snd (put "posts/a.md" c1Payload1 (Some "posts") db0) in
  let db2 := snd (put "posts/a.md" c1Payload2 (Some "posts") db1) in
  let def := default {| idx_fields := [] |} (postsDefs !! "rank") in
  exists s col t P2,
    db_tinaSchema db2 = Some s /\ getCollectionByFullPath s "posts/a.md" = Some col /\
    templateChosen col c1Payload2 t /\ P2 = bodyPayload (coll_format col) (bodyField t) c1Payload2 /\
    db_level db2 !! (rootSublevel, normalizePath "posts/a.md") = Some (LDoc P2) /\
    (forall key, trailingPath (normalizePath "posts/a.md") key ->
       (is_Some (db_level db2 !! (indexSublevel "posts" "rank", key)) <->
        makeKeyForField def P2 (normalizePath "posts/a.md") = Some key)) /\
    (forall key, makeKeyForField def P2 (normalizePath "posts/a.md") = Some key ->
       trailingPath (normalizePath "posts/a.md") key /\
       db_level db2 !! (indexSublevel "posts" "rank", key) = Some LMarker) /\
    (forall f, isMarkdownFormat (coll_format col) = true -> bodyField t = Some f ->
       field_name f <> "$_body" -> In (field_name f) (map if_name (idx_fields def)) ->
       forall key, trailingPath (normalizePath "posts/a.md") key ->
       db_level db2 !! (indexSublevel "posts" "rank", key) = None).
Proof.
  cbv zeta.
  apply (C1_put_put_index_entries "posts/a.md" c1Payload1 c1Payload2 "posts"
           (freshDB [postsCollection]) true
           (snd (put "posts/a.md" c1Payload1 (Some "posts") (freshDB [postsCollection]))) true
           (snd (put "posts/a.md" c1Payload2 (Some "posts")
                     (snd (put "posts/a.md" c1Payload1 (Some "posts") (freshDB [postsCollection])))))
           postsTable postsDefs "rank").
  - discriminate.
  - vm_compute. reflexivity.
  - vm_compute. reflexivity.
  - vm_compute. reflexivity.
  - reflexivity.
  - vm_compute. reflexivity.
  - intros key _ [v Hv]. exfalso. revert Hv. unfold freshDB. simpl.
    rewrite lookup_singleton_ne; [discriminate|]. intros Heq. injection Heq. discriminate.
Defined.

(** Claim C7 (failing input): [put] stores [posts\a.md] under the
    normalized key [posts/a.md], for the primary record and for the index
    entries alike. [delete] of the same path removes the primary record and
    the bridge file, but it builds its index del-ops from the raw path, so
    the [__filepath__] and [rank] entries of [posts/a.md] stay behind. *)
Theorem C7_delete_keeps_index_entries_of_raw_path :
  let db1 := snd (put "posts\a.md" c1Payload2 (Some "posts") (freshDB [postsCollection])) in
  is_Some (db_level db1 !! (rootSublevel, normalizePath "posts\a.md")) /\
  exists db2, delete "posts\a.md" db1 = (Ret tt, db2) /\
    db_level db2 !! (rootSublevel, normalizePath "posts\a.md") = None /\
    db_bridge db2 !! normalizePath "posts\a.md" = None /\
    db_level db2 !! (indexSublevel "posts" DEFAULT_COLLECTION_SORT_KEY, "posts/a.md") = Some LMarker /\
    db_level db2 !! (indexSublevel "posts" "rank",
                     "0009" +:+ INDEX_KEY_FIELD_SEPARATOR +:+ "posts/a.md") = Some LMarker.
Proof.
  cbv zeta. split; [vm_compute; eexists; reflexivity|].
  eexists. split; [vm_compute; reflexivity|].
  vm_compute. repeat split.
Qed.

Lemma getSchema_cached s db : db_tinaSchema db = Some s -> getSchema db = (Ret s, db).
Proof. intros Hs. unfold getSchema, mbind, M_bind, getDB; simpl. by rewrite Hs. Qed.

Lemma getSchema_Ret s db r db' :
  fst (getSchema db) = Ret s -> getSchema db = (r, db') ->
  r = Ret s /\ db_tinaSchema db' = Some s /\ db_level db' = db_level db /\
  db_bridge db' = db_bridge db /\ db_cidx db' = db_cidx db.
Proof.
  intros Hs H. rewrite H in Hs. simpl in Hs. subst r. split; [reflexivity|].
  revert H. unfold getSchema, getTinaSchema, levelGet, mbind, M_bind, mret, M_ret, raise, getDB, modifyDB; simpl.
  destruct (db_tinaSchema db) as [s0|] eqn:E.
  - intros H. injection H as -> <-. auto.
  - destruct (db_level db !! (rootSublevel, schemaPath)) as [[]|]; simpl;
      intros H; try discriminate H; injection H as -> <-; auto.
Qed.













(** ** Further properties of the source *)

Lemma bind_Raise_inv {A B} (m : M A) (k : A -> M B) db e db' :
  (m ≫= k) db = (Raise e, db') ->
  m db = (Raise e, db') \/ exists a dbm, m db = (Ret a, dbm) /\ k a dbm = (Raise e, db').
Proof.
  unfold mbind, M_bind. destruct (m db) as [[a|e0] dbm]; intros H; [right; eauto|].
  injection H as -> ->. by left.
Qed.

Lemma fetchExisting_total key db :
  fetchExisting key db = (Ret (db_level db !! (rootSublevel, key)), db).
Proof.
  unfold fetchExisting, catchM, levelGet, mbind, M_bind, getDB; simpl.
  by destruct (db_level db !! (rootSublevel, key)).
Qed.

Lemma collectionIndexDefinitionsFor_sameFiles coll :
  Preserves sameFiles (collectionIndexDefinitionsFor coll).
Proof.
  unfold collectionIndexDefinitionsFor. destruct coll as [c|]; [|pret].
  destruct (truthyStr (Some c)); [|pret].
  pbind; [apply getIndexDefinitions_sameFiles | intros; pret].
Qed.

Lemma levelGet_Ret_inv sl key db v db' :
  levelGet sl key db = (Ret v, db') -> db_level db !! (sl, key) = Some v /\ db' = db.
Proof.
  unfold levelGet, mbind, M_bind, getDB; simpl.
  destruct (db_level db !! (sl, key)); intros H; [injection H as -> <-; auto | discriminate].
Qed.

(** [put] either returns [true] or throws a [TinaFetchError] for the path
    and the collection argument, wrapping the original error. When it
    throws, the store is as before; the bridge is as before, or holds the
    new file at the normalized path when the throw comes after
    [bridge.put] (a [TypeError] from [makeIndexOpsForDocument]). *)
Theorem put_raise_keeps_level p d coll db e db' :
  put p d coll db = (Raise e, db') ->
  (exists e0, e = EFetch ("Error in PUT for " +:+ p) p coll e0) /\
  db_level db' = db_level db /\
  (db_bridge db' = db_bridge db \/
   exists f, db_bridge db' = <[normalizePath p := f]> (db_bridge db)).
Proof.
  unfold put, catchM. unfold mbind at 1, M_bind at 1.
  destruct (_ db) as [[u|e0] dbm] eqn:Eb; [discriminate|].
  intros H. injection H as <- <-. split; [eauto|].
  destruct (isSystemFile p).
  { injection Eb as _ <-. split; [reflexivity | left; reflexivity]. }
  apply bind_Raise_inv in Eb as [Eb|(cid & db1 & H1 & Eb)].
  { destruct (collectionIndexDefinitionsFor_sameFiles _ _ _ _ Eb) as [HL HB].
    split; [exact HL | left; exact HB]. }
  destruct (collectionIndexDefinitionsFor_sameFiles _ _ _ _ H1) as [HL1 HB1].
  apply bind_Raise_inv in Eb as [Eb|([f P] & db2 & H2 & Eb)].
  { destruct (stringifyFile_sameData _ _ _ _ _ Eb) as (HL2 & HB2 & _).
    split; [congruence | left; congruence]. }
  destruct (stringifyFile_sameData _ _ _ _ _ H2) as (HL2 & HB2 & _).
  apply bind_Raise_inv in Eb as [Eb|(u & db3 & H3 & Eb)].
  { unfold bridgePut in Eb. apply bridgeIO_Raise in Eb as [_ ->].
    split; [congruence | left; congruence]. }
  unfold bridgePut in H3. apply bridgeIO_Ret in H3 as [_ ->].
  assert (Hrest : dbm = setBridge (<[normalizePath p := f]> (db_bridge db2)) db2).
  { apply bind_Raise_inv in Eb as [Eb|(ops & db4 & H4 & Eb)].
    { apply orTypeError_Raise in Eb as (_ & _ & <-). reflexivity. }
    apply orTypeError_Ret in H4 as [_ ->].
    rewrite (mbind_Ret _ _ _ _ _ (fetchExisting_total _ _)) in Eb.
    apply bind_Raise_inv in Eb as [Eb|(dops & db5 & H5 & Eb)].
    { destruct (db_level _ !! _) as [item|].
      - apply orTypeError_Raise in Eb as (_ & _ & <-). reflexivity.
      - discriminate Eb. }
    unfold levelBatch, modifyDB in Eb. discriminate Eb. }
  subst dbm. cbn [setBridge db_level db_bridge].
  split; [congruence|]. right. exists f. congruence.
Qed.

Lemma put_raise_keeps_level_witness :
  match put "posts/x.md" c1Payload2 (Some "drafts") (freshDB [postsCollection]) with
  | (Raise e, db') =>
      (exists e0, e = EFetch ("Error in PUT for " +:+ "posts/x.md") "posts/x.md" (Some "drafts") e0) /\
      db_level db' = db_level (freshDB [postsCollection]) /\
      (db_bridge db' = db_bridge (freshDB [postsCollection]) \/
       exists f, db_bridge db' = <[normalizePath "posts/x.md" := f]> (db_bridge (freshDB [postsCollection])))
  | (Ret _, _) => False
  end.
Proof.
  destruct (put "posts/x.md" c1Payload2 (Some "drafts") (freshDB [postsCollection]))
    as [[b|e] db'] eqn:E.
  - vm_compute in E. discriminate.
  - exact (put_raise_keeps_level _ _ _ _ _ _ E).
Defined.

Lemma collectionForPath_sameData p : Preserves sameData (collectionForPath p).
Proof. unfold collectionForPath. pbind; [apply getSchema_sameData | intros; pret]. Qed.

(** Same table of injected bridge faults. *)
Definition sameFaults (db db' : DB) : Prop := db_bridgeFaults db' = db_bridgeFaults db.

Global Instance sameFaults_refl : Reflexive sameFaults.
Proof. intros db. reflexivity. Qed.
Global Instance sameFaults_trans : Transitive sameFaults.
Proof. intros x y z H1 H2. unfold sameFaults in *. congruence. Qed.

Lemma getSchema_sameFaults : Preserves sameFaults getSchema.
Proof.
  unfold getSchema. pbind; [pret|].
  intros db0. destruct (db_tinaSchema db0); [pret|].
  pbind.
  - unfold getTinaSchema. pbind; [apply levelGet_preserves; apply _|].
    intros v. destruct v; pret.
  - intros s. pbind; [|intros; pret].
    intros db r db' H. injection H as _ <-. reflexivity.
Qed.

Lemma buildIndexDefinitions_sameFaults cs : Preserves sameFaults (buildIndexDefinitions cs).
Proof.
  induction cs as [|c cs IH]; simpl; [pret|].
  destruct (collectionIndexDefinitions c); [|pret].
  pbind; [|intros; exact IH].
  intros db r db' H. injection H as _ <-. reflexivity.
Qed.

Lemma getIndexDefinitions_sameFaults : Preserves sameFaults getIndexDefinitions.
Proof.
  unfold getIndexDefinitions. pbind; [pret|].
  intros db0. destruct (db_cidx db0); [pret|].
  pbind; [apply getSchema_sameFaults|].
  intros s. pbind; [apply buildIndexDefinitions_sameFaults|].
  intros _. pbind; [pret|intros; pret].
Qed.

Lemma collectionForPath_sameFaults p : Preserves sameFaults (collectionForPath p).
Proof. unfold collectionForPath. pbind; [apply getSchema_sameFaults | intros; pret]. Qed.

(** The index-definition step of [delete] keeps any frame that
    [getIndexDefinitions] keeps. *)
Lemma deleteCid_preserves (R : DB -> DB -> Prop) `{!Reflexive R, !Transitive R} col :
  Preserves R getIndexDefinitions ->
  Preserves R (match col with
               | Some c => t ← getIndexDefinitions; mret (t ≫= fun m => m !! coll_name c)
               | None => mret None
               end).
Proof. intros Hg. destruct col; [pbind; [exact Hg | intros; pret] | pret]. Qed.

(** When [delete] throws, the bridge is as before. Either the store is as
    before too (the throw comes before the batch), or the throw is the
    rejection of [bridge.delete] at the normalized path, which comes after
    the batch has removed the primary record. *)
Theorem delete_raise_effect p db e db' :
  delete p db = (Raise e, db') ->
  db_bridge db' = db_bridge db /\
  (db_level db' = db_level db \/
   (db_bridgeFaults db !! normalizePath p = Some e /\
    db_level db' !! (rootSublevel, normalizePath p) = None)).
Proof.
  unfold delete. intros H.
  apply bind_Raise_inv in H as [H|(col & db1 & H1 & H)].
  { destruct (collectionForPath_sameData _ _ _ _ H) as (HL & HB & _). auto. }
  destruct (collectionForPath_sameData _ _ _ _ H1) as (HL1 & HB1 & _).
  pose proof (collectionForPath_sameFaults _ _ _ _ H1) as HF1.
  apply bind_Raise_inv in H as [H|(cid & db2 & H2 & H)].
  { destruct (deleteCid_preserves sameFiles col getIndexDefinitions_sameFiles _ _ _ H) as [HL HB].
    split; [congruence | left; congruence]. }
  destruct (deleteCid_preserves sameFiles col getIndexDefinitions_sameFiles _ _ _ H2) as [HL2 HB2].
  pose proof (deleteCid_preserves sameFaults col getIndexDefinitions_sameFaults _ _ _ H2) as HF2.
  cbv zeta in H.
  apply bind_Raise_inv in H as [H|(item & db3 & H3 & H)].
  { destruct (levelGet_preserves sameFiles _ _ _ _ _ H) as [HL HB].
    split; [congruence | left; congruence]. }
  apply levelGet_Ret_inv in H3 as [_ ->].
  apply bind_Raise_inv in H as [H|(u & db4 & H4 & H)].
  { destruct col as [c|]; [|injection H as _ <-; split; [congruence | left; congruence]].
    apply bind_Raise_inv in H as [H|(ops & db5 & H5 & H)].
    { apply orTypeError_Raise in H as (_ & _ & <-). split; [congruence | left; congruence]. }
    unfold levelBatch, modifyDB in H. discriminate H. }
  unfold bridgeDelete in H. apply bridgeIO_Raise in H as [Hf ->].
  destruct col as [c|]; [|discriminate H4].
  apply bind_Ret_inv in H4 as (ops & db5 & H5 & H4). apply orTypeError_Ret in H5 as [_ ->].
  unfold levelBatch, modifyDB in H4. injection H4 as _ <-.
  cbn [setLevel db_bridge db_level db_bridgeFaults] in Hf |- *.
  split; [congruence|]. right. split.
  - unfold sameFaults in HF1, HF2. congruence.
  - rewrite applyBatch_app. simpl. apply lookup_delete_eq.
Qed.

Lemma delete_raise_effect_witness :
  let db0 := withBridgeFault "posts/a.md" (EError "EACCES")
               (snd (put "posts/a.md" c1Payload1 (Some "posts") (freshDB [postsCollection]))) in
  match delete "posts/a.md" db0 with
  | (Raise e, db') =>
      db_bridge db' = db_bridge db0 /\
      (db_level db' = db_level db0 \/
       (db_bridgeFaults db0 !! normalizePath "posts/a.md" = Some e /\
        db_level db' !! (rootSublevel, normalizePath "posts/a.md") = None))
  | (Ret _, _) => False
  end.
Proof.
  intros db0. destruct (delete "posts/a.md" db0) as [[u|e] db'] eqn:E.
  - subst db0. vm_compute in E. discriminate.
  - exact (delete_raise_effect _ _ _ _ E).
Defined.

(** [delete] of a path with no primary record throws, and leaves the
    store and the bridge file in place. *)
Theorem delete_missing_record_raises p db r db' :
  db_level db !! (rootSublevel, normalizePath p) = None -> delete p db = (r, db') ->
  (exists e, r = Raise e) /\ db_level db' = db_level db /\ db_bridge db' = db_bridge db.
Proof.
  intros Hnone H. unfold delete in H. destruct r as [u|e].
  - exfalso.
    apply bind_Ret_inv in H as (col & db1 & H1 & H).
    destruct (collectionForPath_sameData _ _ _ _ H1) as (HL1 & _ & _).
    apply bind_Ret_inv in H as (cid & db2 & H2 & H).
    destruct (deleteCid_preserves sameFiles col getIndexDefinitions_sameFiles _ _ _ H2) as [HL2 _].
    cbv zeta in H. apply bind_Ret_inv in H as (item & db3 & H3 & H).
    apply levelGet_Ret_inv in H3 as [Hitem _]. congruence.
  - split; [eauto|].
    apply bind_Raise_inv in H as [H|(col & db1 & H1 & H)].
    { destruct (collectionForPath_sameData _ _ _ _ H) as (HL & HB & _). auto. }
    destruct (collectionForPath_sameData _ _ _ _ H1) as (HL1 & HB1 & _).
    apply bind_Raise_inv in H as [H|(cid & db2 & H2 & H)].
    { destruct (deleteCid_preserves sameFiles col getIndexDefinitions_sameFiles _ _ _ H) as [HL HB].
      split; congruence. }
    destruct (deleteCid_preserves sameFiles col getIndexDefinitions_sameFiles _ _ _ H2) as [HL2 HB2].
    cbv zeta in H.
    apply bind_Raise_inv in H as [H|(item & db3 & H3 & H)].
    { destruct (levelGet_preserves sameFiles _ _ _ _ _ H) as [HL HB]. split; congruence. }
    apply levelGet_Ret_inv in H3 as [Hitem _]. exfalso. congruence.
Qed.

Lemma delete_missing_record_raises_witness :
  (exists e, fst (delete "posts/b.md" (freshDB [postsCollection])) = Raise e) /\
  db_level (snd (delete "posts/b.md" (freshDB [postsCollection])))
    = db_level (freshDB [postsCollection]) /\
  db_bridge (snd (delete "posts/b.md" (freshDB [postsCollection])))
    = db_bridge (freshDB [postsCollection]).
Proof.
  apply (delete_missing_record_raises "posts/b.md" (freshDB [postsCollection])).
  - vm_compute. reflexivity.
  - apply surjective_pairing.
Defined.

Lemma applyBatch_other st ops loc :
  Forall (fun op => opLoc op <> loc) ops -> applyBatch st ops !! loc = st !! loc.
Proof.
  intros Hall. revert st. induction Hall as [|op ops Hop Hall IH]; intros st; [reflexivity|].
  unfold applyBatch; simpl. fold (applyBatch (applyOp st op) ops). rewrite IH.
  exact (applyOp_other _ _ _ Hop).
Qed.

Lemma indexOps_other st fp c defs P o loc :
  (forall sort, loc.1 <> indexSublevel c sort) ->
  applyBatch st (indexOps fp c defs P o) !! loc = st !! loc.
Proof.
  intros Hsl. apply applyBatch_other. unfold indexOps.
  apply Forall_forall. intros op Hin. apply list_elem_of_omap in Hin as ([sort def] & _ & Hop).
  unfold makeIndexOp in Hop. destruct (makeKeyForField def P fp); [|discriminate].
  injection Hop as <-. intros Heq. apply (Hsl sort). rewrite <- Heq. by destruct o.
Qed.

Lemma collectionForPath_cached p s db :
  db_tinaSchema db = Some s -> collectionForPath p db = (Ret (getCollectionByFullPath s p), db).
Proof. intros Hs. unfold collectionForPath. rewrite (mbind_Ret _ _ _ _ _ (getSchema_cached _ _ Hs)). reflexivity. Qed.

(** After a successful [delete p] of a document of collection [col], with
    the schema and the index table already loaded: the primary record at
    the normalized path is gone and so is the bridge file; in each index of
    [col], the entry keyed from the stored payload and the raw path [p] is
    gone; every other entry of the store is as before. The name of [col]
    is non-empty, so [makeIndexOpsForDocument] builds the delete ops. *)
Theorem delete_success_effect p db db' s col T defs :
  db_tinaSchema db = Some s -> getCollectionByFullPath s p = Some col ->
  db_cidx db = Some T -> T !! coll_name col = Some defs -> coll_name col <> "" ->
  delete p db = (Ret tt, db') ->
  exists item, db_level db !! (rootSublevel, normalizePath p) = Some item /\
    db_bridge db' = base.delete (normalizePath p) (db_bridge db) /\
    db_level db' !! (rootSublevel, normalizePath p) = None /\
    (forall sort def key, defs !! sort = Some def ->
       makeKeyForField def (lvalPayload item) p = Some key ->
       db_level db' !! (indexSublevel (coll_name col) sort, key) = None) /\
    (forall loc, loc <> (rootSublevel, normalizePath p) ->
       (forall sort def, defs !! sort = Some def -> loc.1 = indexSublevel (coll_name col) sort ->
          makeKeyForField def (lvalPayload item) p <> Some loc.2) ->
       db_level db' !! loc = db_level db !! loc).
Proof.
  intros Hs Hcol Hc Hdefs Hnm H. unfold delete in H.
  apply bind_Ret_inv in H as (col' & db1 & H1 & H).
  rewrite (collectionForPath_cached _ _ _ Hs), Hcol in H1. injection H1 as <- <-.
  apply bind_Ret_inv in H as (cid & db2 & H2 & H).
  rewrite (mbind_Ret _ _ _ _ _ (getIndexDefinitions_memo _ _ Hc)) in H2.
  injection H2 as Hcid <-. simpl in Hcid. rewrite Hdefs in Hcid. subst cid.
  cbv zeta in H. apply bind_Ret_inv in H as (item & db3 & H3 & H).
  apply levelGet_Ret_inv in H3 as [Ei ->].
  apply bind_Ret_inv in H as (u & db4 & H4 & H).
  apply bind_Ret_inv in H4 as (ops & db5 & H5 & H4).
  apply orTypeError_Ret in H5 as [Hops ->].
  unfold makeIndexOpsForDocument in Hops. rewrite truthyStr_nonempty in Hops by exact Hnm.
  injection Hops as <-.
  unfold levelBatch, modifyDB in H4. injection H4 as _ <-.
  unfold bridgeDelete in H. apply bridgeIO_Ret in H as [_ ->].
  exists item. split; [exact Ei|]. split; [reflexivity|]. cbn [setBridge setLevel db_level].
  rewrite applyBatch_app.
  assert (Hroot : forall st loc, loc <> (rootSublevel, normalizePath p) ->
            applyBatch st [BDel rootSublevel (normalizePath p)] !! loc = st !! loc).
  { intros st loc Hne. apply applyOp_other. simpl. congruence. }
  split; [simpl; apply lookup_delete_eq|]. split.
  - intros sort def key Hdef Hk. rewrite Hroot by discriminate.
    rewrite indexOps_lookup, Hdef, bool_decide_true by exact Hk. reflexivity.
  - intros [sl k] Hne Hother. rewrite Hroot by exact Hne.
    assert (Hsl : (exists sort, sl = indexSublevel (coll_name col) sort) \/
                  (forall sort, sl <> indexSublevel (coll_name col) sort)).
    { unfold indexSublevel. destruct sl as [|c' [|sort [|x r]]];
        try (right; intros ? ?; discriminate).
      destruct (decide (c' = coll_name col)) as [->|Hn]; [left; eauto|].
      right. intros ? [=]. contradiction. }
    destruct Hsl as [[sort ->]|Hno].
    + rewrite indexOps_lookup. destruct (defs !! sort) as [def|] eqn:Hd; [|reflexivity].
      rewrite bool_decide_false; [reflexivity|]. exact (Hother sort def Hd eq_refl).
    + apply indexOps_other. exact Hno.
Qed.

Lemma pair_of_fst {A B} (x : A * B) a : fst x = a -> x = (a, snd x).
Proof. destruct x; simpl; intros ->; reflexivity. Qed.

Lemma delete_success_effect_witness :
  exists item, db_level (snd (put "posts/a.md" c1Payload1 (Some "posts") (freshDB [postsCollection])))
                 !! (rootSublevel, normalizePath "posts/a.md") = Some item /\
    db_bridge (snd (delete "posts/a.md" (snd (put "posts/a.md" c1Payload1 (Some "posts") (freshDB [postsCollection]))))) =
      base.delete (normalizePath "posts/a.md")
        (db_bridge (snd (put "posts/a.md" c1Payload1 (Some "posts") (freshDB [postsCollection])))) /\
    db_level (snd (delete "posts/a.md" (snd (put "posts/a.md" c1Payload1 (Some "posts") (freshDB [postsCollection])))))
      !! (rootSublevel, normalizePath "posts/a.md") = None /\
    (forall sort def key, postsDefs !! sort = Some def ->
       makeKeyForField def (lvalPayload item) "posts/a.md" = Some key ->
       db_level (snd (delete "posts/a.md" (snd (put "posts/a.md" c1Payload1 (Some "posts") (freshDB [postsCollection])))))
         !! (indexSublevel (coll_name postsCollection) sort, key) = None) /\
    (forall loc, loc <> (rootSublevel, normalizePath "posts/a.md") ->
       (forall sort def, postsDefs !! sort = Some def -> loc.1 = indexSublevel (coll_name postsCollection) sort ->
          makeKeyForField def (lvalPayload item) "posts/a.md" <> Some loc.2) ->
       db_level (snd (delete "posts/a.md" (snd (put "posts/a.md" c1Payload1 (Some "posts") (freshDB [postsCollection]))))) !! loc =
       db_level (snd (put "posts/a.md" c1Payload1 (Some "posts") (freshDB [postsCollection]))) !! loc).
Proof.
  refine (delete_success_effect "posts/a.md"
    (snd (put "posts/a.md" c1Payload1 (Some "posts") (freshDB [postsCollection])))
    (snd (delete "posts/a.md" (snd (put "posts/a.md" c1Payload1 (Some "posts") (freshDB [postsCollection])))))
    [postsCollection] postsCollection postsTable postsDefs _ _ _ _ _ _).
  - vm_compute. reflexivity.
  - vm_compute. reflexivity.
  - vm_compute. reflexivity.
  - exact (lookup_singleton_eq (M:=gmap string) "posts" postsDefs).
  - intros Heq. vm_compute in Heq. discriminate Heq.
  - apply pair_of_fst. vm_compute. reflexivity.
Defined.


Lemma buildIndexDefinitions_ok cs db :
  Forall (fun c => is_Some (collectionIndexDefinitions c)) cs ->
  exists db', buildIndexDefinitions cs db = (Ret tt, db') /\
    db_tinaSchema db' = db_tinaSchema db /\ db_level db' = db_level db /\
    db_cidx db' = match cs with
                  | [] => db_cidx db
                  | _ => Some (builtTable cs ∪ default ∅ (db_cidx db))
                  end.
Proof.
  intros Hok. revert db. induction Hok as [|c cs [d Hd] Hok IH]; intros db.
  - eexists. repeat split.
  - simpl. rewrite Hd. unfold mbind at 1, M_bind at 1, modifyDB.
    destruct (IH (setCidx (Some (<[coll_name c := d]> (default ∅ (db_cidx db)))) db))
      as (db' & Hb & Hs & Hl & Hc).
    exists db'. split; [exact Hb|]. split; [exact Hs|]. split; [exact Hl|].
    rewrite Hc. unfold builtTable. cbn [omap list_omap]. rewrite Hd. cbn [fmap option_fmap option_map rev].
    rewrite list_to_map_app. cbn [list_to_map foldr fst snd].
    destruct cs as [|c' cs']; simpl.
    + by rewrite map_empty_union, <- insert_union_l, map_empty_union.
    + by rewrite <- map_union_assoc, <- insert_union_l, map_empty_union.
Qed.

Lemma buildIndexDefinitions_app pre rest db db1 :
  buildIndexDefinitions pre db = (Ret tt, db1) ->
  buildIndexDefinitions (pre ++ rest) db = buildIndexDefinitions rest db1.
Proof.
  revert db. induction pre as [|c pre IH]; intros db; simpl.
  - intros H. injection H as <-. reflexivity.
  - destruct (collectionIndexDefinitions c); [|discriminate].
    unfold mbind at 1, M_bind at 1, modifyDB. intros H. apply IH in H. rewrite <- H. reflexivity.
Qed.

Lemma getIndexDefinitions_unfold_fresh db s db1 :
  db_cidx db = None -> getSchema db = (Ret s, db1) ->
  getIndexDefinitions db =
    (_ ← buildIndexDefinitions s; db' ← getDB; mret (db_cidx db')) db1.
Proof.
  intros Hc Hs. unfold getIndexDefinitions, mbind at 1, M_bind at 1, getDB at 1. rewrite Hc.
  exact (mbind_Ret _ _ _ _ _ Hs).
Qed.

(** [getIndexDefinitions] with no table yet, when the schema loads and
    every collection's definitions build: the table maps each collection
    name to the definitions of the last collection of that name, and there
    is no table at all when the schema has no collection. *)
Theorem getIndexDefinitions_fresh db s :
  db_cidx db = None -> fst (getSchema db) = Ret s ->
  Forall (fun c => is_Some (collectionIndexDefinitions c)) s ->
  fst (getIndexDefinitions db) = Ret (match s with [] => None | _ => Some (builtTable s) end).
Proof.
  intros Hc Hs Hok.
  destruct (getSchema_Ret _ _ _ _ Hs (surjective_pairing (getSchema db))) as (Hr1 & _ & _ & _ & Hc1).
  destruct (getSchema db) as [r1 db1] eqn:E1. simpl in Hr1, Hc1. subst r1.
  rewrite (getIndexDefinitions_unfold_fresh _ _ _ Hc E1).
  destruct (buildIndexDefinitions_ok _ db1 Hok) as (db2 & Hb & _ & _ & Hc2).
  rewrite (mbind_Ret _ _ _ _ _ Hb). simpl. rewrite Hc2, Hc1, Hc.
  destruct s; [reflexivity|]. simpl. by rewrite map_union_empty.
Qed.

Lemma getIndexDefinitions_fresh_witness :
  fst (getIndexDefinitions (freshDB [postsCollection])) = Ret (Some (builtTable [postsCollection])).
Proof.
  apply (getIndexDefinitions_fresh (freshDB [postsCollection]) [postsCollection]).
  - reflexivity.
  - vm_compute. reflexivity.
  - constructor; [vm_compute; eexists; reflexivity | constructor].
Defined.

(** When the loop of [getIndexDefinitions] throws at a collection [c]
    after earlier collections [pre] were written, the call raises the
    TypeError, but the table of [pre] stays memoized: the next call returns
    it without error, and [c] and the collections after it are missing. *)
Theorem getIndexDefinitions_partial_after_error db pre c post r db' :
  db_cidx db = None -> fst (getSchema db) = Ret (pre ++ c :: post)%list -> pre <> [] ->
  Forall (fun c => is_Some (collectionIndexDefinitions c)) pre ->
  collectionIndexDefinitions c = None ->
  getIndexDefinitions db = (r, db') ->
  r = Raise ETypeError /\ getIndexDefinitions db' = (Ret (Some (builtTable pre)), db').
Proof.
  intros Hc Hs Hpre Hok Hbad H.
  destruct (getSchema_Ret _ _ _ _ Hs (surjective_pairing (getSchema db))) as (Hr1 & _ & _ & _ & Hc1).
  destruct (getSchema db) as [r1 db1] eqn:E1. simpl in Hr1, Hc1. subst r1.
  rewrite (getIndexDefinitions_unfold_fresh _ _ _ Hc E1) in H.
  destruct (buildIndexDefinitions_ok _ db1 Hok) as (db2 & Hb & _ & _ & Hc2).
  rewrite (mbind_Raise _ _ _ ETypeError db2) in H.
  2:{ rewrite (buildIndexDefinitions_app _ _ _ _ Hb). simpl. by rewrite Hbad. }
  injection H as <- <-. split; [reflexivity|].
  apply getIndexDefinitions_memo. rewrite Hc2, Hc1, Hc.
  destruct pre; [contradiction|]. simpl. by rewrite map_union_empty.
Qed.

Lemma getIndexDefinitions_partial_after_error_witness :
  fst (getIndexDefinitions (freshDB [postsCollection; tagsCollection])) = Raise ETypeError /\
  getIndexDefinitions (snd (getIndexDefinitions (freshDB [postsCollection; tagsCollection]))) =
    (Ret (Some (builtTable [postsCollection])),
     snd (getIndexDefinitions (freshDB [postsCollection; tagsCollection]))).
Proof.
  apply (getIndexDefinitions_partial_after_error (freshDB [postsCollection; tagsCollection])
           [postsCollection] tagsCollection []).
  - reflexivity.
  - vm_compute. reflexivity.
  - discriminate.
  - constructor; [vm_compute; eexists; reflexivity | constructor].
  - vm_compute. reflexivity.
  - apply surjective_pairing.
Defined.

Module QueryExtra.
Import Query.
Local Open Scope list_scope.

Lemma scanEdges_limited_acc limit reverse matchKey itemFilter keys edges :
  limit <> (-1)%Z -> (length edges <= Z.to_nat limit)%nat ->
  scanEdges limit reverse matchKey itemFilter keys edges =
    (edges ++ firstn (Z.to_nat limit - length edges) (matchingEdges matchKey itemFilter keys),
     reverse && (Z.to_nat limit - length edges <? length (matchingEdges matchKey itemFilter keys))%nat,
     negb reverse && (Z.to_nat limit - length edges <? length (matchingEdges matchKey itemFilter keys))%nat).
Proof.
  intros Hl. revert edges. induction keys as [|k keys IH]; intros edges Hlen; simpl.
  - rewrite firstn_nil, app_nil_r. by rewrite andb_false_r, andb_false_r.
  - unfold matchingEdges at 1 2 3; simpl. destruct (matchKey k) as [fp|]; [|apply IH; exact Hlen].
    destruct (itemFilter k); simpl; [|apply IH; exact Hlen].
    fold (matchingEdges matchKey itemFilter keys).
    rewrite (proj2 (Z.eqb_neq limit (-1)) Hl). simpl.
    destruct (decide (length edges = Z.to_nat limit)) as [Heq|Hlt].
    + assert (Hge : (Z.of_nat (length edges) >=? limit)%Z = true) by (apply Z.geb_le; lia).
      rewrite Hge, Heq, Nat.sub_diag. simpl. rewrite app_nil_r.
      by destruct reverse.
    + assert (Hge : (Z.of_nat (length edges) >=? limit)%Z = false)
        by (rewrite Z.geb_leb; apply Z.leb_gt; lia).
      rewrite Hge. rewrite IH by (rewrite length_app; simpl; lia).
      rewrite length_app. simpl.
      replace (Z.to_nat limit - length edges)%nat with (S (Z.to_nat limit - (length edges + 1)))
        by lia.
      simpl. by rewrite <- app_assoc.
Qed.

(** The scan of [query] under a limit other than -1: it keeps the first
    [limit] matching edges (none for a negative limit), and it sets one
    page flag exactly when more edges match: [hasPreviousPage] when it
    scans in reverse, [hasNextPage] otherwise. *)
Theorem scanEdges_limited limit reverse matchKey itemFilter keys :
  limit <> (-1)%Z ->
  scanEdges limit reverse matchKey itemFilter keys [] =
    (firstn (Z.to_nat limit) (matchingEdges matchKey itemFilter keys),
     reverse && (Z.to_nat limit <? length (matchingEdges matchKey itemFilter keys))%nat,
     negb reverse && (Z.to_nat limit <? length (matchingEdges matchKey itemFilter keys))%nat).
Proof.
  intros Hl. rewrite scanEdges_limited_acc by (simpl; lia).
  simpl. by rewrite Nat.sub_0_r.
Qed.

Lemma scanEdges_limited_witness :
  scanEdges 2 true (fun k => Some k) (fun k => negb (String.eqb k "b")) ["a"; "b"; "c"; "d"] [] =
    (firstn (Z.to_nat 2) (matchingEdges (fun k => Some k) (fun k => negb (String.eqb k "b"))
                             ["a"; "b"; "c"; "d"]),
     true && (Z.to_nat 2 <? length (matchingEdges (fun k => Some k)
                                       (fun k => negb (String.eqb k "b")) ["a"; "b"; "c"; "d"]))%nat,
     negb true && (Z.to_nat 2 <? length (matchingEdges (fun k => Some k)
                                       (fun k => negb (String.eqb k "b")) ["a"; "b"; "c"; "d"]))%nat).
Proof. apply scanEdges_limited. discriminate. Defined.

End QueryExtra.

Lemma get_sameData p : Preserves sameData (get p).
Proof.
  unfold get. destruct (isSystemFile p); [pret|].
  pbind; [apply getSchema_sameData|]. intros s.
  pbind; [apply levelGet_preserves; exact _|]. intros v.
  destruct (getCollectionAndTemplateByFullPath _ _ _) as [[c t]|]; pret.
Qed.

Lemma documentExists_facts p db r db' :
  documentExists p db = (r, db') ->
  (exists b, r = Ret b) /\ sameData db db' /\
  (db_level db !! (rootSublevel, normalizePath p) = None -> r = Ret false).
Proof.
  unfold documentExists, catchM.
  destruct ((get p ≫= fun _ => mret true) db) as [[b|e] dbg] eqn:Eg; intros H;
    injection H as <- <-.
  - assert (Hg : sameData db dbg) by (eapply (preserves_bind sameData); [apply get_sameData|intros; pret|exact Eg]).
    split; [eauto|]. split; [exact Hg|].
    intros Hnone. exfalso. apply bind_Ret_inv in Eg as (pl & dbm & Hm & _).
    revert Hm. unfold get. destruct (isSystemFile p); [discriminate|].
    destruct (getSchema db) as [[s|e] db1] eqn:E1; unfold mbind at 1, M_bind at 1; rewrite E1; [|discriminate].
    destruct (getSchema_sameData db (Ret s) db1 E1) as (Hl1 & _ & _).
    cbv beta zeta.
    rewrite (mbind_Raise _ _ _ (ENotFound (normalizePath p)) db1); [discriminate|].
    unfold levelGet, mbind, M_bind, getDB; simpl. rewrite Hl1, Hnone. reflexivity.
  - split; [eauto|]. split; [|reflexivity].
    eapply (preserves_bind sameData); [apply get_sameData|intros; pret|exact Eg].
Qed.

(** [documentExists] never raises and changes neither the store, the
    bridge nor the index table; it answers [false] whenever the store holds
    no record at the normalized path. *)
Theorem documentExists_spec p db r db' :
  documentExists p db = (r, db') ->
  (exists b, r = Ret b) /\ sameData db db' /\
  (db_level db !! (rootSublevel, normalizePath p) = None -> r = Ret false).
Proof. exact (documentExists_facts p db r db'). Qed.

Lemma documentExists_spec_witness :
  (exists b, fst (documentExists "posts/a.md" (freshDB [postsCollection])) = Ret b) /\
  sameData (freshDB [postsCollection]) (snd (documentExists "posts/a.md" (freshDB [postsCollection]))) /\
  (db_level (freshDB [postsCollection]) !! (rootSublevel, normalizePath "posts/a.md") = None ->
   fst (documentExists "posts/a.md" (freshDB [postsCollection])) = Ret false).
Proof. apply documentExists_spec. apply surjective_pairing. Defined.

Lemma delete_Ret_record_gone p db db' :
  delete p db = (Ret tt, db') -> db_level db' !! (rootSublevel, normalizePath p) = None.
Proof.
  unfold delete. intros H.
  apply bind_Ret_inv in H as (col & db1 & _ & H).
  apply bind_Ret_inv in H as (cid & db2 & _ & H).
  cbv zeta in H. apply bind_Ret_inv in H as (item & db3 & _ & H).
  apply bind_Ret_inv in H as (u & db4 & H4 & H).
  destruct col as [c|]; [|discriminate H4].
  apply bind_Ret_inv in H4 as (ops & db5 & H5 & H4). apply orTypeError_Ret in H5 as [_ ->].
  unfold levelBatch, modifyDB in H4. injection H4 as _ <-.
  unfold bridgeDelete in H. apply bridgeIO_Ret in H as [_ ->]. cbn [setBridge setLevel db_level].
  rewrite applyBatch_app. simpl. apply lookup_delete_eq.
Qed.

(** After a [delete p] that succeeds, [documentExists p] answers [false]. *)
Theorem delete_then_documentExists p db db' :
  delete p db = (Ret tt, db') -> fst (documentExists p db') = Ret false.
Proof.
  intros H. destruct (documentExists_facts p db' _ _ (surjective_pairing _)) as (_ & _ & Hf).
  apply Hf. exact (delete_Ret_record_gone _ _ _ H).
Qed.

Lemma delete_then_documentExists_witness :
  fst (documentExists "posts/a.md"
         (snd (delete "posts/a.md" (snd (put "posts/a.md" c1Payload1 (Some "posts") (freshDB [postsCollection])))))) =
  Ret false.
Proof.
  apply (delete_then_documentExists "posts/a.md"
           (snd (put "posts/a.md" c1Payload1 (Some "posts") (freshDB [postsCollection])))).
  apply pair_of_fst. vm_compute. reflexivity.
Defined.

Lemma stringifyFile_cached_state p d s db :
  db_tinaSchema db = Some s -> snd (stringifyFile p d db) = db.
Proof.
  intros Hs. unfold stringifyFile. destruct (isSystemFile p); [reflexivity|].
  rewrite (mbind_Ret _ _ _ _ _ (getSchema_cached _ _ Hs)).
  destruct (getCollectionByFullPath s p) as [c|]; [|reflexivity].
  cbv beta zeta. destruct (getTemplatesForCollectable c) as [t|ts].
  - reflexivity.
  - destruct (hasOwnProperty d "_template"); [|reflexivity].
    unfold mbind at 1, M_bind at 1, mret at 1, M_ret at 1.
    destruct (find _ ts); reflexivity.
Qed.

Lemma mbind_Ret2 {A B C} (m : M A) (k1 : A -> M B) (k2 : B -> M C) db a db' :
  m db = (Ret a, db') -> ((m ≫= k1) ≫= k2) db = (k1 a ≫= k2) db'.
Proof. intros H. unfold mbind, M_bind. rewrite H. reflexivity. Qed.

Lemma mbind_Ret3 {A B C D} (m : M A) (k1 : A -> M B) (k2 : B -> M C) (k3 : C -> M D) db a db' :
  m db = (Ret a, db') -> (((m ≫= k1) ≫= k2) ≫= k3) db = ((k1 a ≫= k2) ≫= k3) db'.
Proof. intros H. unfold mbind, M_bind. rewrite H. reflexivity. Qed.

Lemma mbind_Raise2 {A B C} (m : M A) (k1 : A -> M B) (k2 : B -> M C) db e db' :
  m db = (Raise e, db') -> ((m ≫= k1) ≫= k2) db = (Raise e, db').
Proof. intros H. unfold mbind, M_bind. rewrite H. reflexivity. Qed.

Lemma mret_bind {A B} (x : A) (k : A -> M B) db : (mret x ≫= k) db = k x db.
Proof. reflexivity. Qed.

Lemma mret_bind2 {A B C} (x : A) (k1 : A -> M B) (k2 : B -> M C) db :
  ((mret x ≫= k1) ≫= k2) db = (k1 x ≫= k2) db.
Proof. reflexivity. Qed.

Lemma catch_true_tail (m : M unit) (h : Exn -> M bool) db :
  (forall e dbx, fst (h e dbx) <> Ret true /\ snd (h e dbx) = dbx) ->
  snd (m db) = snd (catchM (m ≫= fun _ => mret true) h db) /\
  (fst (m db) = Ret tt <-> fst (catchM (m ≫= fun _ => mret true) h db) = Ret true).
Proof.
  intros Hh. unfold catchM, mbind, M_bind.
  destruct (m db) as [[[]|e] db']; simpl.
  - split; [reflexivity|]. split; reflexivity.
  - destruct (Hh e db') as [H1 H2]. split; [symmetry; exact H2|].
    split; [discriminate|]. intros H. contradiction.
Qed.

(** With the schema and the index table loaded, [addPendingDocument p d]
    leaves the instance exactly as [put p d c] does, for [c] the non-empty
    name of [p]'s collection, and it succeeds exactly when [put] does:
    same bridge file, same index ops, same primary record. *)
Theorem addPendingDocument_as_put p d db s col T :
  db_tinaSchema db = Some s -> db_cidx db = Some T ->
  getCollectionByFullPath s p = Some col -> coll_name col <> "" ->
  snd (addPendingDocument p d db) = snd (put p d (Some (coll_name col)) db) /\
  (fst (addPendingDocument p d db) = Ret tt <-> fst (put p d (Some (coll_name col)) db) = Ret true).
Proof.
  intros Hs Hc Hcol Hn.
  assert (Htr : truthyStr (Some (coll_name col)) = true)
    by (simpl; destruct (String.eqb_spec (coll_name col) ""); [contradiction|reflexivity]).
  assert (HS := stringifyFile_cached_state p d s db Hs).
  unfold addPendingDocument, put, catchM.
  destruct (isSystemFile p) eqn:Hsys.
  - assert (Hr : fst (stringifyFile p d db) = Raise (EError ("Unexpected put for config file " +:+ p)))
      by (unfold stringifyFile; rewrite Hsys; reflexivity).
    rewrite (mbind_Raise _ _ _ _ db (injective_projections _ (_, db) Hr HS)).
    simpl. split; [reflexivity|]. split; discriminate.
  - unfold collectionIndexDefinitionsFor. rewrite Htr.
    rewrite (mbind_Ret3 _ _ _ _ _ _ _ (getIndexDefinitions_memo _ _ Hc)).
    rewrite mret_bind2.
    destruct (stringifyFile p d db) as [[[f P]|e] db1] eqn:ES; simpl in HS; subst db1.
    + rewrite (mbind_Ret _ _ _ _ _ ES), (mbind_Ret2 _ _ _ _ _ _ ES). cbv beta iota.
      rewrite (mbind_Ret _ _ _ _ _ (collectionForPath_cached _ _ _ Hs)), Hcol. cbv iota.
      rewrite (mbind_Ret2 _ _ _ _ _ _ (getIndexDefinitions_memo _ _ Hc)), mret_bind.
      change (coll_name <$> Some col) with (Some (coll_name col)).
      refine (catch_true_tail _ _ _ _).
      intros e dbx. cbv [raise fst snd]. split; [discriminate | reflexivity].
    + rewrite (mbind_Raise _ _ _ _ _ ES), (mbind_Raise2 _ _ _ _ _ _ ES).
      cbv [raise fst snd]. split; [reflexivity|]. split; discriminate.
Qed.
Lemma addPendingDocument_as_put_witness :
  snd (addPendingDocument "posts/b.md" c1Payload2
         (snd (put "posts/a.md" c1Payload1 (Some "posts") (freshDB [postsCollection])))) =
  snd (put "posts/b.md" c1Payload2 (Some (coll_name postsCollection))
         (snd (put "posts/a.md" c1Payload1 (Some "posts") (freshDB [postsCollection])))) /\
  (fst (addPendingDocument "posts/b.md" c1Payload2
          (snd (put "posts/a.md" c1Payload1 (Some "posts") (freshDB [postsCollection])))) = Ret tt <->
   fst (put "posts/b.md" c1Payload2 (Some (coll_name postsCollection))
          (snd (put "posts/a.md" c1Payload1 (Some "posts") (freshDB [postsCollection])))) = Ret true).
Proof.
  apply (addPendingDocument_as_put "posts/b.md" c1Payload2 _ [postsCollection] postsCollection postsTable).
  - vm_compute. reflexivity.
  - vm_compute. reflexivity.
  - vm_compute. reflexivity.
  - discriminate.
Defined.

Lemma prefix_app (s t : string) : String.prefix s (s +:+ t) = true.
Proof.
  induction s as [|c s IH]; [destruct t; reflexivity|].
  change (String c s +:+ t) with (String c (s +:+ t)). simpl.
  destruct (Ascii.ascii_dec c c); [exact IH | contradiction].
Qed.

Lemma index0_app (s t : string) : String.index 0 s (s +:+ t) = Some 0.
Proof.
  destruct s as [|a s'].
  - destruct t; reflexivity.
  - pose proof (prefix_app (String a s') t) as Hp.
    change (String a s' +:+ t) with (String a (s' +:+ t)) in *.
    cbn [String.index]. rewrite Hp. reflexivity.
Qed.

Lemma substring_all (t : string) m : (String.length t <= m)%nat -> substring 0 m t = t.
Proof.
  revert m. induction t as [|c t IH]; intros m Hm; [destruct m; reflexivity|].
  destruct m as [|m]; simpl in Hm; [lia|]. simpl. f_equal. apply IH. lia.
Qed.

Lemma substring_skip_app (a t : string) m :
  substring (String.length a) m (a +:+ t) = substring 0 m t.
Proof.
  induction a as [|c a IH]; [reflexivity|].
  change (String c a +:+ t) with (String c (a +:+ t)).
  cbn [String.length substring]. exact IH.
Qed.

Lemma substring_after_app (a t : string) m :
  (String.length a + String.length t <= m)%nat -> substring (String.length a) m (a +:+ t) = t.
Proof. intros Hm. rewrite substring_skip_app. apply substring_all. lia. Qed.

Lemma length_app_str (a b : string) : String.length (a +:+ b) = (String.length a + String.length b)%nat.
Proof.
  induction a as [|c a IH]; [reflexivity|].
  change (String c a +:+ b) with (String c (a +:+ b)). cbn [String.length]. by rewrite IH.
Qed.

Lemma split_last (s : string) k :
  String.length s = S k -> s = substring 0 k s +:+ substring k 1 s.
Proof.
  revert k. induction s as [|c s IH]; intros k Hk; [discriminate|].
  destruct k as [|k].
  - destruct s; [reflexivity | discriminate].
  - simpl in Hk. cbn [substring].
    change (String c (substring 0 k s) +:+ substring k 1 s)
      with (String c (substring 0 k s +:+ substring k 1 s)).
    f_equal. apply IH. lia.
Qed.

Lemma string_app_nil_l (s : string) : "" +:+ s = s.
Proof. reflexivity. Qed.

Lemma substring_0_0 (s : string) : substring 0 0 s = "".
Proof. by destruct s. Qed.

(** The [_relativePath] that [get] computes for a path [p] under the
    collection path [cp], [p = cp/rel]: the collection path goes, then one
    leading and one trailing slash; what is left is [rel] itself whenever
    [rel] does not end in a slash. *)
Theorem relativePath_under_collection (cp rel : string) :
  (forall r, rel <> r +:+ "/") ->
  stripSlashes (replaceFirst (cp +:+ "/" +:+ rel) cp) = rel.
Proof.
  intros Hrel. unfold replaceFirst. rewrite index0_app, Nat.add_0_l.
  rewrite substring_after_app by (rewrite !length_app_str; lia).
  rewrite substring_0_0, string_app_nil_l.
  unfold stripSlashes. simpl (match "/" +:+ rel with _ => _ end). rewrite !string_app_nil_l.
  destruct (String.length rel) as [|k] eqn:Hn; [reflexivity|].
  simpl. rewrite Nat.sub_0_r.
  destruct (String.eqb_spec (substring k 1 rel) "/") as [Hs|]; [|reflexivity].
  exfalso. apply (Hrel (substring 0 k rel)). rewrite <- Hs. exact (split_last rel k Hn).
Qed.

Lemma relativePath_under_collection_witness :
  stripSlashes (replaceFirst ("posts" +:+ "/" +:+ "nested/a.md") "posts") = "nested/a.md".
Proof.
  apply relativePath_under_collection.
  intros r H. pose proof (f_equal String.length H) as Hl. rewrite length_app_str in Hl.
  simpl in Hl. apply (f_equal (substring (String.length r) 1)) in H.
  rewrite substring_skip_app in H. replace (String.length r) with 10%nat in H by lia.
  discriminate H.
Defined.

Section Batching.
Local Open Scope list_scope.

Lemma batchFull_spec fuel st ops :
  (length ops / 25 <= fuel)%nat ->
  batchFull fuel st ops =
    (applyBatch st (take (25 * (length ops / 25)) ops), drop (25 * (length ops / 25)) ops).
Proof.
  revert st ops. induction fuel as [|fuel IH]; intros st ops Hf.
  - cbn [batchFull]. assert (Hq : (length ops / 25 = 0)%nat) by lia. rewrite Hq. reflexivity.
  - cbn [batchFull]. destruct (Nat.leb_spec 25 (length ops)) as [Hle|Hlt].
    + rewrite IH by (rewrite length_drop; apply Nat.le_trans with (length ops / 25 - 1)%nat;
                     [pose proof (Nat.div_mod_eq (length ops) 25);
                      pose proof (Nat.mod_upper_bound (length ops) 25);
                      pose proof (Nat.div_mod_eq (length ops - 25) 25);
                      pose proof (Nat.mod_upper_bound (length ops - 25) 25); lia | lia]).
      rewrite length_drop.
      assert (Hq : (25 + 25 * ((length ops - 25) / 25) = 25 * (length ops / 25))%nat).
      { pose proof (Nat.div_mod_eq (length ops) 25).
        pose proof (Nat.mod_upper_bound (length ops) 25).
        pose proof (Nat.div_mod_eq (length ops - 25) 25).
        pose proof (Nat.mod_upper_bound (length ops - 25) 25). lia. }
      rewrite <- applyBatch_app, take_take_drop, drop_drop, Hq. reflexivity.
    + rewrite Nat.div_small by exact Hlt. reflexivity.
Qed.

Lemma batchRest_spec fuel st ops :
  (length ops <= fuel)%nat -> batchRest fuel st ops = (applyBatch st ops, []).
Proof.
  revert st ops. induction fuel as [|fuel IH]; intros st ops Hf.
  - destruct ops; [reflexivity | simpl in Hf; lia].
  - destruct ops as [|op ops']; [reflexivity|].
    cbn [batchRest]. rewrite IH by (rewrite length_drop; simpl in *; lia).
    rewrite <- applyBatch_app, take_drop. reflexivity.
Qed.

Lemma enqueueOps_step st0 P ops :
  enqueueOps ops (applyBatch st0 (take (25 * (length P / 25)) P), drop (25 * (length P / 25)) P) =
  (applyBatch st0 (take (25 * (length (P ++ ops) / 25)) (P ++ ops)),
   drop (25 * (length (P ++ ops) / 25)) (P ++ ops)).
Proof.
  unfold enqueueOps. cbn [fst snd].
  assert (Hk : (25 * (length P / 25) <= length P)%nat)
    by (pose proof (Nat.div_mod_eq (length P) 25); lia).
  rewrite <- (drop_app_le P ops) by exact Hk.
  rewrite batchFull_spec by (apply Nat.Div0.div_le_upper_bound; lia).
  rewrite <- applyBatch_app, <- (take_app_le P ops) by exact Hk.
  rewrite take_take_drop, drop_drop, length_drop, length_app.
  assert (Hq : (25 * (length P / 25) + 25 * ((length P + length ops - 25 * (length P / 25)) / 25)
                = 25 * ((length P + length ops) / 25))%nat).
  { pose proof (Nat.div_mod_eq (length P) 25).
    pose proof (Nat.mod_upper_bound (length P) 25).
    pose proof (Nat.div_mod_eq (length P + length ops - 25 * (length P / 25)) 25).
    pose proof (Nat.mod_upper_bound (length P + length ops - 25 * (length P / 25)) 25).
    pose proof (Nat.div_mod_eq (length P + length ops) 25).
    pose proof (Nat.mod_upper_bound (length P + length ops) 25). lia. }
  rewrite Hq. reflexivity.
Qed.

Lemma enqueueOps_fold st0 P Ls :
  foldl (fun s ops => enqueueOps ops s)
        (applyBatch st0 (take (25 * (length P / 25)) P), drop (25 * (length P / 25)) P) Ls =
  (applyBatch st0 (take (25 * (length (P ++ concat Ls) / 25)) (P ++ concat Ls)),
   drop (25 * (length (P ++ concat Ls) / 25)) (P ++ concat Ls)).
Proof.
  revert P. induction Ls as [|ops Ls IH]; intros P.
  - cbn [foldl concat]. by rewrite app_nil_r.
  - cbn [foldl concat]. rewrite enqueueOps_step, IH. by rewrite app_assoc.
Qed.

(** The batching of [deleteContentByPaths] and [indexContentByPaths]:
    after the op lists [Ls] are enqueued in turn, the store holds the
    largest multiple of 25 of the ops applied in order and the rest (fewer
    than 25) is pending; the final flush applies the rest, so that in the
    end the store is the one of all the ops applied in order. *)
Theorem enqueueOps_then_flush st0 Ls :
  foldl (fun s ops => enqueueOps ops s) (st0, []) Ls =
    (applyBatch st0 (take (25 * (length (concat Ls) / 25)) (concat Ls)),
     drop (25 * (length (concat Ls) / 25)) (concat Ls)) /\
  (length (drop (25 * (length (concat Ls) / 25)) (concat Ls)) < 25)%nat /\
  flushOps (foldl (fun s ops => enqueueOps ops s) (st0, []) Ls) = (applyBatch st0 (concat Ls), []).
Proof.
  pose proof (enqueueOps_fold st0 [] Ls) as H. simpl in H.
  rewrite H. split; [reflexivity|]. split.
  - rewrite length_drop.
    pose proof (Nat.div_mod_eq (length (concat Ls)) 25).
    pose proof (Nat.mod_upper_bound (length (concat Ls)) 25). lia.
  - unfold flushOps. cbn [fst snd].
    rewrite batchRest_spec by lia.
    rewrite <- applyBatch_app, take_drop. reflexivity.
Qed.

End Batching.
